(** * cc-wf-studio: process orchestration and multi-location workflow store

    A shallow embedding of the extension's service layer
    ([claude-code-service.ts], [file-service.ts], the load-workflow and
    load-workflow-list commands) and the properties its design document
    states about them.

    Conventions of the embedding.
    - A JavaScript string is a [string] of bytes (its UTF-8 encoding).  The
      positions computed by the code are only ever offsets of ASCII
      delimiters, so byte offsets and UTF-16 offsets cut the same pieces.
    - A computation that may throw returns [Exc A]; [try_catch] is the
      [try { } catch { }] statement.
    - Host services (the clock, the file system, timers, child processes)
      are explicit components of a state that the operations thread. *)

From Stdlib Require Import ZArith Ascii String List Bool Lia.
From Stdlib Require Import DecimalString DecimalFacts DecimalPos DecimalN.
From Stdlib Require Import Sorted Permutation.
From stdpp Require Import base option list gmap strings.

#[local] Arguments String.append !_ _ / : simpl nomatch.

(** ** Exceptions *)

Inductive JsError : Type :=
| SyntaxError (message : string)
| TypeError (message : string)
| Error (message : string).

Inductive Exc (A : Type) : Type :=
| Return (a : A)
| Throw (e : JsError).

Arguments Return {A} a.
Arguments Throw {A} e.

#[global] Instance JsError_eq_dec : EqDecision JsError.
Proof. solve_decision. Defined.

#[global] Instance Exc_eq_dec {A : Type} `{EqDecision A} : EqDecision (Exc A).
Proof. solve_decision. Defined.

#[global] Instance exc_ret : MRet Exc := fun A a => Return a.

#[global] Instance exc_bind : MBind Exc := fun A B k m =>
  match m with
  | Return a => k a
  | Throw e => Throw e
  end.

(** The statement [try { body } catch (e) { handler }]. *)
Definition try_catch {A : Type} (body : Exc A) (handler : JsError -> Exc A) : Exc A :=
  match body with
  | Return a => Return a
  | Throw e => handler e
  end.

(** [error instanceof Error ? error.message : fallback]; every exception of
    the model is an [Error] object. *)
Definition error_message (e : JsError) : string :=
  match e with
  | SyntaxError m => m
  | TypeError m => m
  | Error m => m
  end.

(** ** String built-ins *)

Module Js.

(** The single-byte members of WhiteSpace and LineTerminator: TAB, LF, VT,
    FF, CR and SP.  The multi-byte Unicode spaces are not recognised. *)
Definition is_white_space (c : ascii) : bool :=
  match c with
  | "009" | "010" | "011" | "012" | "013" | " " => true
  | _ => false
  end%char.

Fixpoint trimStart (s : string) : string :=
  match s with
  | EmptyString => EmptyString
  | String c s' => if is_white_space c then trimStart s' else s
  end.

Fixpoint trimEnd (s : string) : string :=
  match s with
  | EmptyString => EmptyString
  | String c s' =>
      match trimEnd s' with
      | EmptyString => if is_white_space c then EmptyString else String c EmptyString
      | r => String c r
      end
  end.

(** [String.prototype.trim] *)
Definition trim (s : string) : string := trimEnd (trimStart s).

Fixpoint drop (n : nat) (s : string) : string :=
  match n, s with
  | O, _ => s
  | S _, EmptyString => EmptyString
  | S n', String _ s' => drop n' s'
  end.

Fixpoint take (n : nat) (s : string) : string :=
  match n, s with
  | O, _ => EmptyString
  | S _, EmptyString => EmptyString
  | S n', String c s' => String c (take n' s')
  end.

(** [String.prototype.startsWith] and [endsWith] (no position argument). *)
Definition startsWith (s p : string) : bool := String.prefix p s.

Definition endsWith (s p : string) : bool :=
  let n := String.length s in
  let m := String.length p in
  if (m <=? n)%nat then String.eqb (drop (n - m) s) p else false.

(** Relative index resolution shared by [slice]: a negative index counts
    from the end, and the result is clamped to [0, len]. *)
Definition clamp_index (len : nat) (i : Z) : nat :=
  if (i <? 0)%Z then Z.to_nat (Z.max (Z.of_nat len + i) 0)
  else Nat.min (Z.to_nat i) len.

(** [String.prototype.slice(start, end)]; [None] is an omitted [end]. *)
Definition slice (s : string) (start : Z) (stop : option Z) : string :=
  let len := String.length s in
  let from := clamp_index len start in
  let to := match stop with None => len | Some e => clamp_index len e end in
  take (to - from) (drop from s).

(** [String.prototype.indexOf]: the least position where [p] occurs, or -1. *)
Definition indexOf (s p : string) : Z :=
  match String.index 0 p s with
  | Some i => Z.of_nat i
  | None => (-1)%Z
  end.

Fixpoint last_index (p s : string) : option nat :=
  match s with
  | EmptyString => if String.prefix p EmptyString then Some 0 else None
  | String _ s' =>
      match last_index p s' with
      | Some i => Some (S i)
      | None => if String.prefix p s then Some 0 else None
      end
  end.

(** [String.prototype.lastIndexOf]: the greatest position where [p] occurs,
    or -1. *)
Definition lastIndexOf (s p : string) : Z :=
  match last_index p s with
  | Some i => Z.of_nat i
  | None => (-1)%Z
  end.

(** [String.prototype.replace] with a string pattern: only the first
    occurrence is replaced. *)
Definition replace (s p by_ : string) : string :=
  match String.index 0 p s with
  | Some i => take i s +:+ by_ +:+ drop (i + String.length p) s
  | None => s
  end.

End Js.

(** ** JSON values, [JSON.stringify] and [JSON.parse]

    The values [JSON.parse] can return.  An object is the list of its
    properties in property order.  Numbers are the integers: literals with
    a fraction or an exponent, and the exponent notation that [stringify]
    uses from 1e21 on, are outside the modelled fragment. *)

#[local] Unset Elimination Schemes.

Inductive json : Type :=
| JNull
| JBool (b : bool)
| JNum (n : Z)
| JStr (s : string)
| JArr (items : list json)
| JObj (members : list (string * json)).

#[local] Set Elimination Schemes.

Module JSON.

(** *** Printing *)

Definition hex_digit (n : N) : ascii :=
  match n with
  | 0 => "0" | 1 => "1" | 2 => "2" | 3 => "3" | 4 => "4" | 5 => "5"
  | 6 => "6" | 7 => "7" | 8 => "8" | 9 => "9" | 10 => "a" | 11 => "b"
  | 12 => "c" | 13 => "d" | 14 => "e" | _ => "f"
  end%N%char.

(** QuoteJSONString, one code unit at a time. *)
Definition escape_char (c : ascii) : string :=
  match c with
  | "034" => String "\" (String "034" EmptyString)
  | "\" => "\\"%string
  | "008" => "\b"%string
  | "012" => "\f"%string
  | "010" => "\n"%string
  | "013" => "\r"%string
  | "009" => "\t"%string
  | _ =>
      let n := N_of_ascii c in
      if (n <? 32)%N
      then ("\u00" +:+ String (hex_digit (n / 16)) (String (hex_digit (n mod 16)) ""))%string
      else String c ""%string
  end%char.

Fixpoint escape (s : string) : string :=
  match s with
  | EmptyString => EmptyString
  | String c s' => escape_char c +:+ escape s'
  end.

Definition quote (s : string) : string :=
  String "034" (escape s +:+ String "034" EmptyString).

Definition string_of_N (n : N) : string :=
  NilZero.string_of_uint (N.to_uint n).

Definition string_of_Z (n : Z) : string :=
  match n with
  | Z0 => "0"
  | Zpos p => string_of_N (Npos p)
  | Zneg p => String "-" (string_of_N (Npos p))
  end.

Fixpoint join_comma (parts : list string) : string :=
  match parts with
  | [] => ""
  | [p] => p
  | p :: rest => p +:+ "," +:+ join_comma rest
  end.

(** [JSON.stringify(v)] with no replacer and no indentation. *)
Fixpoint stringify (v : json) : string :=
  match v with
  | JNull => "null"
  | JBool true => "true"
  | JBool false => "false"
  | JNum n => string_of_Z n
  | JStr s => quote s
  | JArr items => "[" +:+ join_comma (map stringify items) +:+ "]"
  | JObj members =>
      "{" +:+
      join_comma (map (fun kv => quote (fst kv) +:+ ":" +:+ stringify (snd kv)) members) +:+
      "}"
  end.

(** *** Parsing *)

(** JSON white space: TAB, LF, CR and SP only. *)
Definition is_json_ws (c : ascii) : bool :=
  match c with
  | "009" | "010" | "013" | " " => true
  | _ => false
  end%char.

Fixpoint skip_ws (s : string) : string :=
  match s with
  | String c s' => if is_json_ws c then skip_ws s' else s
  | EmptyString => EmptyString
  end.

Definition hex_value (c : ascii) : option N :=
  let n := N_of_ascii c in
  if (48 <=? n)%N && (n <=? 57)%N then Some (n - 48)%N
  else if (97 <=? n)%N && (n <=? 102)%N then Some (n - 87)%N
  else if (65 <=? n)%N && (n <=? 70)%N then Some (n - 55)%N
  else None.

Definition hex4 (a b c d : ascii) : option N :=
  match hex_value a, hex_value b, hex_value c, hex_value d with
  | Some x, Some y, Some z, Some w => Some (((x * 16 + y) * 16 + z) * 16 + w)%N
  | _, _, _, _ => None
  end.

Definition byte (n : N) : ascii := ascii_of_N (n mod 256).

(** The UTF-8 bytes of a code point (a lone surrogate is encoded like any
    other three-byte code point). *)
Definition utf8 (cp : N) : string :=
  if (cp <? 128)%N then String (byte cp) ""
  else if (cp <? 2048)%N then
    String (byte (192 + cp / 64)) (String (byte (128 + cp mod 64)) "")
  else if (cp <? 65536)%N then
    String (byte (224 + cp / 4096))
      (String (byte (128 + (cp / 64) mod 64)) (String (byte (128 + cp mod 64)) ""))
  else
    String (byte (240 + cp / 262144))
      (String (byte (128 + (cp / 4096) mod 64))
         (String (byte (128 + (cp / 64) mod 64)) (String (byte (128 + cp mod 64)) ""))).

Definition is_high_surrogate (u : N) : bool := (55296 <=? u)%N && (u <? 56320)%N.
Definition is_low_surrogate (u : N) : bool := (56320 <=? u)%N && (u <? 57344)%N.

(** The characters of a string literal after its opening quote, up to and
    including the closing quote. *)
Fixpoint parse_chars (s : string) : option (string * string) :=
  match s with
  | EmptyString => None
  | String "034" rest => Some (""%string, rest)
  | String "\" (String "u" (String a (String b (String c (String d rest))))) =>
      match hex4 a b c d with
      | None => None
      | Some hi =>
          let single :=
            match parse_chars rest with
            | Some (str, rest') => Some (utf8 hi +:+ str, rest')
            | None => None
            end in
          if is_high_surrogate hi then
            match rest with
            | String "\" (String "u" (String a' (String b' (String c' (String d' rest2))))) =>
                match hex4 a' b' c' d' with
                | Some lo =>
                    if is_low_surrogate lo then
                      match parse_chars rest2 with
                      | Some (str, rest') =>
                          Some (utf8 (65536 + (hi - 55296) * 1024 + (lo - 56320)) +:+ str, rest')
                      | None => None
                      end
                    else single
                | None => single
                end
            | _ => single
            end
          else single
      end
  | String "\" (String e rest) =>
      let unescaped :=
        match e with
        | "034" => Some "034" | "\" => Some "\" | "/" => Some "/"
        | "b" => Some "008" | "f" => Some "012" | "n" => Some "010"
        | "r" => Some "013" | "t" => Some "009"
        | _ => None
        end%char in
      match unescaped with
      | Some c =>
          match parse_chars rest with
          | Some (str, rest') => Some (String c str, rest')
          | None => None
          end
      | None => None
      end
  | String c rest =>
      if (N_of_ascii c <? 32)%N then None
      else
        match parse_chars rest with
        | Some (str, rest') => Some (String c str, rest')
        | None => None
        end
  end%char.

Definition digit_of (c : ascii) : option (Decimal.uint -> Decimal.uint) :=
  match c with
  | "0" => Some Decimal.D0 | "1" => Some Decimal.D1 | "2" => Some Decimal.D2
  | "3" => Some Decimal.D3 | "4" => Some Decimal.D4 | "5" => Some Decimal.D5
  | "6" => Some Decimal.D6 | "7" => Some Decimal.D7 | "8" => Some Decimal.D8
  | "9" => Some Decimal.D9
  | _ => None
  end%char.

(** The longest run of decimal digits at the head of [s]. *)
Fixpoint parse_digits (s : string) : Decimal.uint * string :=
  match s with
  | EmptyString => (Decimal.Nil, EmptyString)
  | String c s' =>
      match digit_of c with
      | Some d => let '(ds, rest) := parse_digits s' in (d ds, rest)
      | None => (Decimal.Nil, s)
      end
  end.

Definition starts_fraction_or_exponent (s : string) : bool :=
  match s with
  | String c _ =>
      match c with
      | "." | "e" | "E" => true
      | _ => false
      end%char
  | EmptyString => false
  end.

(** An unsigned integer literal: [0] or a non-zero digit followed by
    digits.  A following fraction or exponent part is rejected (see the
    note on numbers above). *)
Definition parse_nat (s : string) : option (N * string) :=
  let '(ds, rest) := parse_digits s in
  match ds with
  | Decimal.Nil => None
  | _ =>
      if Decimal.uint_beq (Decimal.unorm ds) ds && negb (starts_fraction_or_exponent rest)
      then Some (N.of_uint ds, rest)
      else None
  end.

Definition expect (lit : string) (s : string) : option string :=
  if String.prefix lit s then Some (Js.drop (String.length lit) s) else None.

(** CreateDataProperty on an ordinary object: a key that is already
    present keeps its place and takes the new value. *)
Fixpoint set_property (members : list (string * json)) (k : string) (v : json)
  : list (string * json) :=
  match members with
  | [] => [(k, v)]
  | (k', v') :: rest =>
      if String.eqb k' k then (k, v) :: rest
      else (k', v') :: set_property rest k v
  end.

Fixpoint parse_value (fuel : nat) (s : string) : option (json * string) :=
  match fuel with
  | O => None
  | S fuel' =>
      match skip_ws s with
      | String "n" rest =>
          match expect "ull" rest with Some r => Some (JNull, r) | None => None end
      | String "t" rest =>
          match expect "rue" rest with Some r => Some (JBool true, r) | None => None end
      | String "f" rest =>
          match expect "alse" rest with Some r => Some (JBool false, r) | None => None end
      | String "034" rest =>
          match parse_chars rest with
          | Some (str, r) => Some (JStr str, r)
          | None => None
          end
      | String "[" rest =>
          match skip_ws rest with
          | String "]" r => Some (JArr [], r)
          | _ =>
              match parse_elements fuel' rest with
              | Some (items, r) => Some (JArr items, r)
              | None => None
              end
          end
      | String "{" rest =>
          match skip_ws rest with
          | String "}" r => Some (JObj [], r)
          | _ =>
              match parse_members fuel' [] rest with
              | Some (members, r) => Some (JObj members, r)
              | None => None
              end
          end
      | String "-" rest =>
          match parse_nat rest with
          | Some (n, r) => Some (JNum (- Z.of_N n), r)
          | None => None
          end
      | rest =>
          match parse_nat rest with
          | Some (n, r) => Some (JNum (Z.of_N n), r)
          | None => None
          end
      end
  end%char

with parse_elements (fuel : nat) (s : string) : option (list json * string) :=
  match fuel with
  | O => None
  | S fuel' =>
      match parse_value fuel' s with
      | Some (v, r) =>
          match skip_ws r with
          | String "," r' =>
              match parse_elements fuel' r' with
              | Some (vs, r'') => Some (v :: vs, r'')
              | None => None
              end
          | String "]" r' => Some ([v], r')
          | _ => None
          end
      | None => None
      end
  end%char

with parse_members (fuel : nat) (acc : list (string * json)) (s : string)
  : option (list (string * json) * string) :=
  match fuel with
  | O => None
  | S fuel' =>
      match skip_ws s with
      | String "034" rest =>
          match parse_chars rest with
          | Some (k, r) =>
              match skip_ws r with
              | String ":" r1 =>
                  match parse_value fuel' r1 with
                  | Some (v, r2) =>
                      let acc' := set_property acc k v in
                      match skip_ws r2 with
                      | String "," r3 => parse_members fuel' acc' r3
                      | String "}" r3 => Some (acc', r3)
                      | _ => None
                      end
                  | None => None
                  end
              | _ => None
              end
          | None => None
          end
      | _ => None
      end
  end%char.

(** [JSON.parse(text)] with no reviver: one value, optionally surrounded by
    white space; anything else throws a [SyntaxError]. *)
Definition parse (text : string) : Exc json :=
  match parse_value (S (String.length text)) text with
  | Some (v, rest) =>
      match skip_ws rest with
      | EmptyString => Return v
      | _ => Throw (SyntaxError "Unexpected non-whitespace character after JSON")
      end
  | None => Throw (SyntaxError "Unexpected token in JSON")
  end.

End JSON.

(** ** Run-time built-ins and JavaScript values

    The built-ins whose full behaviour the model does not fix are taken
    from a [Runtime]: the operations below are defined, and the general
    theorems proved, for every runtime.  [reference_runtime] further down
    instantiates it with the [JSON] module above and an ISO-8601 clock. *)

Record Runtime : Type := {
  (** [JSON.parse(text)] *)
  JSON_parse : string -> Exc json;
  (** [new Date(value).getTime()]: [Return None] is NaN (an invalid date);
      the conversion of an object to a primitive value can throw *)
  Date_getTime : json -> Exc (option Z);
  (** [new Date(ms).toISOString()] *)
  Date_toISOString : Z -> string;
  (** the values successive readings of the system clock return *)
  system_clock : nat -> Z
}.

(** ToBoolean of a value that may be [undefined] ([None]). *)
Definition truthy (v : option json) : bool :=
  match v with
  | None => false
  | Some JNull => false
  | Some (JBool b) => b
  | Some (JNum n) => negb (n =? 0)%Z
  | Some (JStr s) => negb (String.eqb s EmptyString)
  | Some (JArr _) => true
  | Some (JObj _) => true
  end.

Fixpoint lookup_member (members : list (string * json)) (k : string) : option json :=
  match members with
  | [] => None
  | (k', v) :: rest => if String.eqb k' k then Some v else lookup_member rest k
  end.

(** The member access [value.key] for the keys the code reads ([name],
    [description], [updatedAt]; none of them is inherited from a
    prototype): a TypeError on [null], [undefined] on a missing key and on
    primitives and arrays. *)
Definition get_property (value : json) (k : string) : Exc (option json) :=
  match value with
  | JNull => Throw (TypeError "Cannot read properties of null")
  | JObj members => Return (lookup_member members k)
  | _ => Return None
  end.

(** [Array.prototype.sort(comparefn)].  The comparator returns a number,
    [None] standing for NaN, which [sort] reads as +0, or throws, and then
    [sort] throws what the comparator has thrown.  The model is the stable
    insertion sort: for a consistent comparator every conforming
    implementation returns this list; for an inconsistent one the order is
    implementation-defined and this is one permitted outcome, and so is
    the order of the comparator's calls, which decides which exception is
    met first when several elements make it throw. *)
Definition compare_result (r : option Z) : Z := default 0%Z r.

Fixpoint sort_insert {A : Type} (comparefn : A -> A -> Exc (option Z)) (x : A)
  (sorted : list A) : Exc (list A) :=
  match sorted with
  | [] => Return [x]
  | y :: rest =>
      v ← comparefn x y;
      if (compare_result v >? 0)%Z
      then rest ← sort_insert comparefn x rest; Return (y :: rest)
      else Return (x :: sorted)
  end.

Fixpoint Array_sort {A : Type} (comparefn : A -> A -> Exc (option Z)) (l : list A)
  : Exc (list A) :=
  match l with
  | [] => Return []
  | x :: rest => sorted ← Array_sort comparefn rest; sort_insert comparefn x sorted
  end.

(** ** [claude-code-service.ts] *)

Module ClaudeCodeService.

Inductive ClaudeModel : Type := sonnet | opus | haiku.

Inductive ErrorCode : Type := COMMAND_NOT_FOUND | TIMEOUT | PARSE_ERROR | UNKNOWN_ERROR.

Record ExecutionError : Type := {
  code : ErrorCode;
  message : string;
  details : option string
}.

Record ClaudeCodeExecutionResult : Type := {
  success : bool;
  output : option string;
  error : option ExecutionError;
  executionTimeMs : Z
}.

Inductive ContentType : Type := tool_use | text.

(** A caller-supplied function object, known by its identity only. *)
Definition StreamingProgressCallback : Type := nat.

(** The handle stored in the registry: the child process behind
    [subprocess.nodeChildProcess], named by its pid. *)
Record Subprocess : Type := { nodeChildProcess : nat }.

Record ActiveProcess : Type := {
  subprocess : Subprocess;
  startTime : Z
}.

(** What a pending [setTimeout] will do when it fires. *)
Inductive TimerCallback : Type :=
| ForceKill (pid : nat) (warning : string)
| InvokeProgress (onProgress : StreamingProgressCallback)
    (chunk displayText explanatoryText : string) (contentType : option ContentType).

Inductive Effect : Type :=
| Logged (level : string) (line : string)
| Killed (pid : nat).

(** The module state and the host it runs in.  [clock] is the sequence of
    values that successive [Date.now()] calls return. *)
Record World : Type := {
  activeProcesses : gmap string ActiveProcess;
  clock : nat -> Z;
  clockReads : nat;
  killedFlags : gset nat;
  timers : list (Z * TimerCallback);
  effects : list Effect
}.

Definition M (A : Type) : Type := World -> A * World.

#[global] Instance M_ret : MRet M := fun A a w => (a, w).
#[global] Instance M_bind : MBind M := fun A B k m w => let '(a, w') := m w in k a w'.

Definition Date_now : M Z := fun w =>
  (clock w (clockReads w),
   {| activeProcesses := activeProcesses w; clock := clock w;
      clockReads := S (clockReads w); killedFlags := killedFlags w;
      timers := timers w; effects := effects w |}).

Definition emit (e : Effect) : M unit := fun w =>
  (tt,
   {| activeProcesses := activeProcesses w; clock := clock w;
      clockReads := clockReads w; killedFlags := killedFlags w;
      timers := timers w; effects := effects w ++ [e] |}).

(** [log(level, message, data)]; the structured [data] is not recorded. *)
Definition log (level line : string) : M unit := emit (Logged level line).

Definition console_log (line : string) : M unit := emit (Logged "console" line).

Definition setTimeout (callback : TimerCallback) (delay : Z) : M unit := fun w =>
  (tt,
   {| activeProcesses := activeProcesses w; clock := clock w;
      clockReads := clockReads w; killedFlags := killedFlags w;
      timers := timers w ++ [(delay, callback)]; effects := effects w |}).

(** [childProcess.kill()] on a child that is still running: the signal is
    sent and the [killed] flag set. *)
Definition kill (pid : nat) : M unit := fun w =>
  (tt,
   {| activeProcesses := activeProcesses w; clock := clock w;
      clockReads := clockReads w; killedFlags := {[pid]} ∪ killedFlags w;
      timers := timers w; effects := effects w ++ [Killed pid] |}).

Definition activeProcesses_get (requestId : string) : M (option ActiveProcess) := fun w =>
  (activeProcesses w !! requestId, w).

Definition activeProcesses_delete (requestId : string) : M unit := fun w =>
  (tt,
   {| activeProcesses := delete requestId (activeProcesses w); clock := clock w;
      clockReads := clockReads w; killedFlags := killedFlags w;
      timers := timers w; effects := effects w |}).

(** [Math.min] on integers. *)
Definition Math_min (a b : Z) : Z := Z.min a b.

Definition executeClaudeCodeCLI
  (prompt : string) (timeoutMs : option Z) (requestId : option string)
  (workingDirectory : option string) (model : option ClaudeModel)
  (allowedTools : option (list string)) : M ClaudeCodeExecutionResult :=
  let timeoutMs := default 60000%Z timeoutMs in
  let model := default sonnet model in
  startTime ← Date_now;
  _ ← console_log "[yougao] 离线模式：跳过 Claude CLI 调用，返回模拟数据";
  _ ← log "INFO" "[yougao] 离线模式：跳过 Claude CLI 调用，返回模拟数据";
  now ← Date_now;
  let executionTimeMs := Math_min (now - startTime) 1000 in
  mret {|
    success := true;
    output := Some (JSON.stringify
      (JObj [("status", JStr "success");
             ("message", JStr "[yougao 离线模式] 工作流已处理完成");
             ("values", JObj [("workflow",
                JObj [("name", JStr "offline-workflow");
                      ("description", JStr "离线模式生成的工作流");
                      ("nodes", JArr []);
                      ("edges", JArr [])])])]));
    error := None;
    executionTimeMs := executionTimeMs
  |}.

Definition executeClaudeCodeCLIStreaming
  (prompt : string) (onProgress : StreamingProgressCallback)
  (timeoutMs : option Z) (requestId : option string)
  (workingDirectory : option string) (model : option ClaudeModel)
  (allowedTools : option (list string)) : M ClaudeCodeExecutionResult :=
  let timeoutMs := default 60000%Z timeoutMs in
  let model := default sonnet model in
  startTime ← Date_now;
  _ ← console_log "[yougao] 离线模式：跳过 Claude CLI 流式调用，返回模拟数据";
  _ ← log "INFO" "[yougao] 离线模式：跳过 Claude CLI 流式调用，返回模拟数据";
  let mockOutput := JSON.stringify
      (JObj [("status", JStr "success");
             ("message", JStr "[yougao 离线模式] 工作流已处理完成");
             ("values", JObj [("workflow",
                JObj [("name", JStr "offline-workflow");
                      ("description", JStr "离线模式生成的工作流");
                      ("nodes", JArr []);
                      ("edges", JArr [])])])]) in
  _ ← setTimeout
        (InvokeProgress onProgress "处理中..." "离线模式处理中..." "离线模式处理中..."
           (Some text)) 100;
  _ ← setTimeout (InvokeProgress onProgress "完成" mockOutput mockOutput (Some text)) 500;
  now ← Date_now;
  let executionTimeMs := Math_min (now - startTime) 600 in
  mret {|
    success := true;
    output := Some mockOutput;
    error := None;
    executionTimeMs := executionTimeMs
  |}.

(** [parseClaudeCodeOutput].  Each strategy either returns (the result of
    its [JSON.parse], which may throw) or falls through ([None]); the
    enclosing [catch] turns every exception into [null]. *)
Definition strategy_fenced (rt : Runtime) (trimmed : string) : option (Exc json) :=
  if Js.startsWith trimmed "```json" && Js.endsWith trimmed "```" then
    let jsonContent := Js.trim (Js.slice (Js.slice trimmed 7 None) 0 (Some (-3)%Z)) in
    Some (JSON_parse rt jsonContent)
  else None.

Definition strategy_raw (rt : Runtime) (trimmed : string) : option (Exc json) :=
  if Js.startsWith trimmed "{" then Some (JSON_parse rt trimmed) else None.

Definition strategy_embedded (rt : Runtime) (trimmed : string) : option (Exc json) :=
  let jsonBlockStart := Js.indexOf trimmed "```json" in
  if negb (jsonBlockStart =? -1)%Z then
    let contentStart := (jsonBlockStart + 7)%Z in
    let jsonBlockEnd := Js.lastIndexOf trimmed "```" in
    if (jsonBlockEnd >? contentStart)%Z then
      let jsonContent := Js.trim (Js.slice trimmed contentStart (Some jsonBlockEnd)) in
      Some (JSON_parse rt jsonContent)
    else None
  else None.

Definition parseClaudeCodeOutput (rt : Runtime) (output : string) : Exc json :=
  try_catch
    (let trimmed := Js.trim output in
     match strategy_fenced rt trimmed with
     | Some result => result
     | None =>
         match strategy_raw rt trimmed with
         | Some result => result
         | None =>
             match strategy_embedded rt trimmed with
             | Some result => result
             | None => JSON_parse rt trimmed
             end
         end
     end)
    (fun _error => Return JNull).

Record CancelResult : Type := {
  cancelled : bool;
  cancel_executionTimeMs : option Z
}.

(** [cancelGeneration] and [cancelRefinement].  When a record is found the
    source awaits [subprocess.nodeChildProcess] before it signals; a call
    is modelled as running from the lookup to the [delete] with no other
    call in between.  The branch of a missing record has no [await]. *)
Definition cancelGeneration (requestId : string) : M CancelResult :=
  activeGen ← activeProcesses_get requestId;
  match activeGen with
  | None =>
      _ ← log "WARN" ("No active generation found for requestId: " +:+ requestId);
      mret {| cancelled := false; cancel_executionTimeMs := None |}
  | Some activeGen =>
      let startTime := startTime activeGen in
      now ← Date_now;
      let executionTimeMs := (now - startTime)%Z in
      let childProcess := nodeChildProcess (subprocess activeGen) in
      _ ← log "INFO" ("Cancelling generation for requestId: " +:+ requestId);
      _ ← kill childProcess;
      _ ← setTimeout
            (ForceKill childProcess ("Forcefully killed process for requestId: " +:+ requestId))
            500;
      _ ← activeProcesses_delete requestId;
      mret {| cancelled := true; cancel_executionTimeMs := Some executionTimeMs |}
  end.

Definition cancelRefinement (requestId : string) : M CancelResult :=
  activeGen ← activeProcesses_get requestId;
  match activeGen with
  | None =>
      _ ← log "WARN" ("No active refinement found for requestId: " +:+ requestId);
      mret {| cancelled := false; cancel_executionTimeMs := None |}
  | Some activeGen =>
      let startTime := startTime activeGen in
      now ← Date_now;
      let executionTimeMs := (now - startTime)%Z in
      let childProcess := nodeChildProcess (subprocess activeGen) in
      _ ← log "INFO" ("Cancelling refinement for requestId: " +:+ requestId);
      _ ← kill childProcess;
      _ ← setTimeout
            (ForceKill childProcess
               ("Forcefully killed refinement process for requestId: " +:+ requestId))
            500;
      _ ← activeProcesses_delete requestId;
      mret {| cancelled := true; cancel_executionTimeMs := Some executionTimeMs |}
  end.

(** [isClaudeCommandAvailable]: the check is skipped and the answer is
    always [true]. *)
Definition isClaudeCommandAvailable : M bool :=
  _ ← console_log "[yougao] 跳过 Claude CLI 校验";
  _ ← log "INFO" "[yougao] 跳过 Claude CLI 校验，强制返回 true";
  mret true.

Record SpawnCommand : Type := {
  command : string;
  args : list string
}.

Definition getClaudeSpawnCommand (args : list string) : M SpawnCommand :=
  isClaudeCommandAvailable ≫= fun useDirectClaude : bool =>
  if useDirectClaude then mret {| command := "claude"; args := args |}
  else mret {| command := "npx"; args := "claude" :: args |}.

(** [getCliModelName]: the model is its own CLI alias. *)
Definition getCliModelName (model : ClaudeModel) : string :=
  match model with
  | sonnet => "sonnet"
  | opus => "opus"
  | haiku => "haiku"
  end.

(** A pending timer fires: the forced kill is sent only if the [killed]
    flag is still unset; a progress call is handed to the caller's
    function, whose own effects are outside this module. *)
Definition fire (callback : TimerCallback) : M unit :=
  match callback with
  | ForceKill pid warning => fun w =>
      if decide (pid ∈ killedFlags w) then (tt, w)
      else (_ ← kill pid; log "WARN" warning) w
  | InvokeProgress _ _ _ _ _ => mret tt
  end.

(** The module starts with an empty registry. *)
Definition initial (clock : nat -> Z) : World :=
  {| activeProcesses := ∅; clock := clock; clockReads := 0;
     killedFlags := ∅; timers := []; effects := [] |}.

(** One observable step of the module: a call of an exported function, or
    a pending timer firing. *)
Inductive step : World -> World -> Prop :=
| step_execute prompt timeoutMs requestId cwd model tools w :
    step w (executeClaudeCodeCLI prompt timeoutMs requestId cwd model tools w).2
| step_streaming prompt onProgress timeoutMs requestId cwd model tools w :
    step w (executeClaudeCodeCLIStreaming prompt onProgress timeoutMs requestId cwd model tools w).2
| step_cancelGeneration requestId w :
    step w (cancelGeneration requestId w).2
| step_cancelRefinement requestId w :
    step w (cancelRefinement requestId w).2
| step_timer delay callback before after w :
    timers w = before ++ (delay, callback) :: after ->
    step w (fire callback
              {| activeProcesses := activeProcesses w; clock := clock w;
                 clockReads := clockReads w; killedFlags := killedFlags w;
                 timers := before ++ after; effects := effects w |}).2.

Inductive reachable (clock : nat -> Z) : World -> Prop :=
| reachable_initial : reachable clock (initial clock)
| reachable_step w w' : reachable clock w -> step w w' -> reachable clock w'.

End ClaudeCodeService.

(** ** [offline.config.js] *)

Module OfflineConfig.

Record t : Type := {
  isOffline : bool;
  localStoragePath : string;
  disableCloudApi : bool
}.

(** The configuration the repository ships. *)
Definition config : t :=
  {| isOffline := true;
     localStoragePath := "~/.yougao/workflows";
     disableCloudApi := true |}.

End OfflineConfig.

(** ** The editor host: [node:path], [node:os] and [vscode.workspace] *)

Inductive FileType : Type := FT_Unknown | FT_File | FT_Directory | FT_SymbolicLink.

Record Host : Type := {
  (** [path.join(...segments)] *)
  path_join : list string -> string;
  (** [os.homedir()] *)
  homedir : string;
  (** [vscode.workspace.workspaceFolders], as the folders' [uri.fsPath] *)
  workspaceFolders : option (list string);
  (** [vscode.workspace.fs.stat(uri)] succeeds *)
  fs_stat : string -> bool;
  (** [vscode.workspace.fs.readFile(uri)], decoded as UTF-8 *)
  fs_readFile : string -> Exc string;
  (** [vscode.workspace.fs.readDirectory(uri)] *)
  fs_readDirectory : string -> Exc (list (string * FileType))
}.

(** ** [file-service.ts] (the read path; console logging is not recorded) *)

Module FileService.

Record t : Type := {
  workspacePath : string;
  workflowsDirectory : string;
  offlineWorkflowsDirectory : string
}.

Section WithHost.

Variable h : Host.
Variable offlineConfig : OfflineConfig.t.

Definition resolveLocalStoragePath (localStoragePath : string) : string :=
  if Js.startsWith localStoragePath "~/" || String.eqb localStoragePath "~" then
    let homeDir := homedir h in
    path_join h [homeDir; Js.slice localStoragePath 2 None]
  else localStoragePath.

Definition constructor : Exc t :=
  match workspaceFolders h with
  | None | Some [] => Throw (Error "No workspace folder is open")
  | Some (folder :: _) =>
      Return {|
        workspacePath := folder;
        workflowsDirectory := path_join h [folder; ".vscode"; "workflows"];
        offlineWorkflowsDirectory :=
          resolveLocalStoragePath (OfflineConfig.localStoragePath offlineConfig)
      |}
  end.

Variable this : t.

Definition getCurrentStorageDirectory : string :=
  if OfflineConfig.isOffline offlineConfig then offlineWorkflowsDirectory this
  else workflowsDirectory this.

Definition handleFileError {A : Type} (operation filePath : string) (error : JsError) : Exc A :=
  Throw (Error ("[yougao] " +:+ operation +:+ " 失败: " +:+ error_message error)).

Definition readFile (filePath : string) : Exc string :=
  try_catch (fs_readFile h filePath) (handleFileError "读取文件" filePath).

Definition fileExists (filePath : string) : bool := fs_stat h filePath.

Definition getWorkflowsDirectory : string := getCurrentStorageDirectory.

Definition getOfflineWorkflowsDirectory : string := offlineWorkflowsDirectory this.

Definition getWorkspacePath : string := workspacePath this.

Definition getWorkflowFilePath (workflowName : string) : string :=
  let storageDir := getCurrentStorageDirectory in
  path_join h [storageDir; workflowName +:+ ".json"].

Definition getOfflineWorkflowFilePath (workflowName : string) : string :=
  path_join h [offlineWorkflowsDirectory this; workflowName +:+ ".json"].

(** [name.replace(/\.json$/, '')]: the suffix is removed when it is
    there. *)
Definition removeJsonSuffix (name : string) : string :=
  if Js.endsWith name ".json" then Js.slice name 0 (Some (-5)%Z) else name.






End WithHost.

End FileService.

(** ** Messages posted to the webview *)

Record WorkflowInfo : Type := {
  info_id : string;
  info_name : json;
  info_description : option json;
  info_updatedAt : json
}.

Inductive Message : Type :=
| LOAD_WORKFLOW (requestId : option string) (workflow : json)
| WORKFLOW_LIST_LOADED (requestId : option string) (workflows : list WorkflowInfo)
| ERROR (requestId : option string) (code : string) (message : string).

(** ** The load-workflow command *)

Module LoadWorkflow.

Section WithHost.

Variable rt : Runtime.
Variable h : Host.
Variable offlineConfig : OfflineConfig.t.
(** [migrateWorkflow] of [../utils/migrate-workflow], which is not among
    the sources: any function, possibly throwing. *)
Variable migrateWorkflow : json -> Exc json.

(** Where the three-way conditional leaves [filePath] and [foundIn]. *)
Definition locate (fileService : FileService.t) (workflowId : string) : string * string :=
  let currentFilePath := FileService.getWorkflowFilePath h offlineConfig fileService workflowId in
  if FileService.fileExists h currentFilePath then (currentFilePath, "current")
  else if OfflineConfig.isOffline offlineConfig then
    let offlineFilePath := FileService.getOfflineWorkflowFilePath h fileService workflowId in
    if FileService.fileExists h offlineFilePath then (offlineFilePath, "offline")
    else (EmptyString, EmptyString)
  else
    let workspaceFilePath :=
      FileService.getWorkflowFilePath h offlineConfig fileService workflowId in
    if FileService.fileExists h workspaceFilePath then (workspaceFilePath, "workspace")
    else (EmptyString, EmptyString).

Definition exc_message (result : Exc Message) (requestId : option string) : Message :=
  match result with
  | Return m => m
  | Throw error => ERROR requestId "LOAD_FAILED" (error_message error)
  end.

(** [loadWorkflow]; the result is the one message it posts. *)
Definition loadWorkflow (fileService : FileService.t) (workflowId : string)
  (requestId : option string) : Message :=
  exc_message
    (let '(filePath, foundIn) := locate fileService workflowId in
     if String.eqb filePath EmptyString then
       Return (ERROR requestId "LOAD_FAILED"
                 ("Workflow " +:+ String "034" (workflowId +:+
                    String "034" " not found in any storage location")))
     else
       content ← FileService.readFile h filePath;
       parsedWorkflow ← JSON_parse rt content;
       workflow ← migrateWorkflow parsedWorkflow;
       Return (LOAD_WORKFLOW requestId workflow))
    requestId.

End WithHost.

End LoadWorkflow.

(** ** The load-workflow-list command *)

Module LoadWorkflowList.

Inductive DirectoryType : Type := current | offline | workspace.

Record WorkflowEntry : Type := {
  id : string;
  name : json;
  description : option json;
  updatedAt : json;
  source : DirectoryType
}.

(** The two collections the scans share, and the number of clock readings
    made so far. *)
Record Scan : Type := {
  workflows : list WorkflowEntry;
  processedFiles : gset string;
  clockReads : nat
}.

Section WithHost.

Variable rt : Runtime.
Variable h : Host.
Variable offlineConfig : OfflineConfig.t.
Variable fileService : FileService.t.

(** The body of the inner [try]: read and parse one file and build its
    entry.  The clock is read only when [updatedAt] is missing or falsy. *)
Definition readEntry (directoryType : DirectoryType) (workflowId : string) (reads : nat)
  : Exc (WorkflowEntry * nat) :=
  let filePath :=
    match directoryType with
    | offline => FileService.getOfflineWorkflowFilePath h fileService workflowId
    | _ => FileService.getWorkflowFilePath h offlineConfig fileService workflowId
    end in
  content ← FileService.readFile h filePath;
  workflow ← JSON_parse rt content;
  name ← get_property workflow "name";
  description ← get_property workflow "description";
  updatedAt ← get_property workflow "updatedAt";
  let '(updatedAt, reads) :=
    match updatedAt with
    | Some v => if truthy (Some v) then (v, reads)
                else (JStr (Date_toISOString rt (system_clock rt reads)), S reads)
    | None => (JStr (Date_toISOString rt (system_clock rt reads)), S reads)
    end in
  Return ({| id := workflowId;
             name := match name with
                     | Some v => if truthy (Some v) then v else JStr workflowId
                     | None => JStr workflowId
                     end;
             description := description;
             updatedAt := updatedAt;
             source := directoryType |}, reads).

(** One iteration of the [for ... of files] loop. *)
Definition visit (directoryType : DirectoryType) (st : Scan) (file : string * FileType) : Scan :=
  let '(filename, fileType) := file in
  match fileType with
  | FT_File =>
      if Js.endsWith filename ".json" then
        let workflowId := Js.replace filename ".json" EmptyString in
        if decide (workflowId ∈ processedFiles st) then st
        else
          match readEntry directoryType workflowId (clockReads st) with
          | Return (entry, reads) =>
              {| workflows := workflows st ++ [entry];
                 processedFiles := processedFiles st ∪ {[workflowId]};
                 clockReads := reads |}
          | Throw _ => st
          end
      else st
  | _ => st
  end.

Definition loadWorkflowsFromDirectory (st : Scan) (directoryType : DirectoryType) : Scan :=
  let directoryPath :=
    match directoryType with
    | current => FileService.getWorkflowsDirectory offlineConfig fileService
    | offline => FileService.getOfflineWorkflowsDirectory fileService
    | workspace => FileService.getWorkflowsDirectory offlineConfig fileService
    end in
  match fs_readDirectory h directoryPath with
  | Throw _ => st
  | Return files => foldl (visit directoryType) st files
  end.

(** The entries gathered by the scans, before sorting. *)
Definition gather : Scan :=
  let st := {| workflows := []; processedFiles := ∅; clockReads := 0 |} in
  let st := loadWorkflowsFromDirectory st current in
  let st :=
    if OfflineConfig.isOffline offlineConfig
    then loadWorkflowsFromDirectory st offline
    else st in
  loadWorkflowsFromDirectory st workspace.

Definition getTime (entry : WorkflowEntry) : Exc (option Z) :=
  Date_getTime rt (updatedAt entry).

(** The comparator handed to [sort]: [dateB - dateA], NaN if either is;
    the two dates are built in this order, and either can throw. *)
Definition byUpdatedAt (a b : WorkflowEntry) : Exc (option Z) :=
  dateA ← getTime a;
  dateB ← getTime b;
  Return (dateA ← dateA; dateB ← dateB; Some (dateB - dateA)%Z).

Definition withoutSource (entry : WorkflowEntry) : WorkflowInfo :=
  {| info_id := id entry; info_name := name entry;
     info_description := description entry; info_updatedAt := updatedAt entry |}.

(** [loadWorkflowList]; the result is the one message it posts: the list,
    or, from the outer [catch], the error that the sort has thrown (the
    scans catch their own exceptions). *)
Definition loadWorkflowList (requestId : option string) : Message :=
  match
    (let workflows := workflows gather in
     workflows ← Array_sort byUpdatedAt workflows;
     let payloadWorkflows := map withoutSource workflows in
     Return (WORKFLOW_LIST_LOADED requestId payloadWorkflows))
  with
  | Return posted => posted
  | Throw error => ERROR requestId "LOAD_FAILED" (error_message error)
  end.

End WithHost.

End LoadWorkflowList.

(** ** A reference runtime and an in-memory host

    Concrete instances on which the operations can be evaluated. *)

Module Reference.

(** *** Dates: the ISO-8601 forms [YYYY-MM-DD] and
    [YYYY-MM-DDTHH:mm(:ss(.sss))Z], in UTC.  Other date strings, which
    engines parse in implementation-defined ways, are invalid here. *)

Definition days_from_civil (y m d : Z) : Z :=
  let y := if (m <=? 2)%Z then (y - 1)%Z else y in
  let era := (y / 400)%Z in
  let yoe := (y - era * 400)%Z in
  let mp := if (m >? 2)%Z then (m - 3)%Z else (m + 9)%Z in
  let doy := ((153 * mp + 2) / 5 + d - 1)%Z in
  let doe := (yoe * 365 + yoe / 4 - yoe / 100 + doy)%Z in
  (era * 146097 + doe - 719468)%Z.

Definition civil_from_days (z : Z) : Z * Z * Z :=
  let z := (z + 719468)%Z in
  let era := (z / 146097)%Z in
  let doe := (z - era * 146097)%Z in
  let yoe := ((doe - doe / 1460 + doe / 36524 - doe / 146096) / 365)%Z in
  let y := (yoe + era * 400)%Z in
  let doy := (doe - (365 * yoe + yoe / 4 - yoe / 100))%Z in
  let mp := ((5 * doy + 2) / 153)%Z in
  let d := (doy - (153 * mp + 2) / 5 + 1)%Z in
  let m := if (mp <? 10)%Z then (mp + 3)%Z else (mp - 9)%Z in
  (if (m <=? 2)%Z then (y + 1)%Z else y, m, d).

Definition is_leap (y : Z) : bool :=
  ((y mod 4 =? 0) && negb (y mod 100 =? 0) || (y mod 400 =? 0))%Z.

Definition days_in_month (y m : Z) : Z :=
  if (m =? 2)%Z then (if is_leap y then 29 else 28)%Z
  else if ((m =? 4) || (m =? 6) || (m =? 9) || (m =? 11))%Z then 30%Z
  else 31%Z.

Definition digit_value (c : ascii) : option Z :=
  let n := Z.of_N (N_of_ascii c) in
  if ((48 <=? n) && (n <=? 57))%Z then Some (n - 48)%Z else None.

Fixpoint digits_value (acc : Z) (s : string) : option Z :=
  match s with
  | EmptyString => Some acc
  | String c s' =>
      match digit_value c with
      | Some d => digits_value (acc * 10 + d)%Z s'
      | None => None
      end
  end.

(** The number written by the [width] digits of [s] from position [from]. *)
Definition field (s : string) (from width : nat) : option Z :=
  let piece := Js.take width (Js.drop from s) in
  if (String.length piece =? width)%nat then digits_value 0 piece else None.

Definition is_at (s : string) (i : nat) (c : ascii) : bool :=
  match String.get i s with
  | Some c' => Ascii.eqb c c'
  | None => false
  end.

Definition parse_date (s : string) : option Z :=
  y ← field s 0 4;
  m ← field s 5 2;
  d ← field s 8 2;
  if is_at s 4 "-" && is_at s 7 "-" &&
     ((1 <=? m) && (m <=? 12) && (1 <=? d) && (d <=? days_in_month y m))%Z
  then Some (days_from_civil y m d * 86400000)%Z
  else None.

Definition parse_time (s : string) : option Z :=
  let len := String.length s in
  hh ← field s 11 2;
  mm ← field s 14 2;
  ss ← (if (len =? 17)%nat then Some 0%Z else field s 17 2);
  ms ← (if (len =? 24)%nat then field s 20 3 else Some 0%Z);
  let shape :=
    is_at s 10 "T" && is_at s 13 ":" && is_at s (len - 1) "Z" &&
    ((len =? 17)%nat
     || (len =? 20)%nat && is_at s 16 ":"
     || (len =? 24)%nat && is_at s 16 ":" && is_at s 19 ".") in
  if shape && ((hh <=? 23) && (mm <=? 59) && (ss <=? 59))%Z
  then Some (((hh * 60 + mm) * 60 + ss) * 1000 + ms)%Z
  else None.

Definition parse_iso (s : string) : option Z :=
  day ← parse_date s;
  if (String.length s =? 10)%nat then Some day
  else (time ← parse_time s; Some (day + time)%Z).

Fixpoint sequence {A : Type} (results : list (Exc A)) : Exc (list A) :=
  match results with
  | [] => Return []
  | result :: rest => a ← result; others ← sequence rest; Return (a :: others)
  end.

(** ToString of a value that [JSON.parse] has returned.  An array is the
    join of its elements, [null] giving the empty text.  An object falls
    back on the inherited [toString] and is [[object Object]], unless it
    has a property [toString] of its own: that property holds no function,
    neither does a [valueOf] of its own, and the inherited [valueOf]
    returns the object itself, so that no primitive value is found and the
    conversion throws a TypeError. *)
Fixpoint to_string (value : json) : Exc string :=
  match value with
  | JNull => Return "null"
  | JBool true => Return "true"
  | JBool false => Return "false"
  | JNum n => Return (JSON.string_of_Z n)
  | JStr s => Return s
  | JArr items =>
      texts ← sequence
        (map (fun item => match item with
                          | JNull => Return EmptyString
                          | _ => to_string item
                          end) items);
      Return (JSON.join_comma texts)
  | JObj members =>
      match lookup_member members "toString" with
      | Some _ => Throw (TypeError "Cannot convert object to primitive value")
      | None => Return "[object Object]"
      end
  end%string.

(** [new Date(value).getTime()] for strings (ISO forms), numbers, booleans
    and [null]; an array or an object is first converted to a primitive
    value, which is its text as above (an inherited [valueOf] returns the
    value itself), and that text is read as a date. *)
Definition getTime (value : json) : Exc (option Z) :=
  match value with
  | JStr s => Return (parse_iso s)
  | JNum n => Return (if (Z.abs n <=? 8640000000000000)%Z then Some n else None)
  | JBool b => Return (Some (if b then 1 else 0)%Z)
  | JNull => Return (Some 0%Z)
  | JArr _ | JObj _ => text ← to_string value; Return (parse_iso text)
  end.

Fixpoint zeros (n : nat) : string :=
  match n with
  | O => EmptyString
  | S n' => String "0" (zeros n')
  end.

Definition pad (width : nat) (n : Z) : string :=
  let digits := JSON.string_of_N (Z.to_N n) in
  zeros (width - String.length digits) +:+ digits.

(** [toISOString] for the years 0000 to 9999. *)
Definition toISOString (ms : Z) : string :=
  let days := (ms / 86400000)%Z in
  let rest := (ms mod 86400000)%Z in
  let '(y, m, d) := civil_from_days days in
  pad 4 y +:+ "-" +:+ pad 2 m +:+ "-" +:+ pad 2 d +:+ "T" +:+
  pad 2 (rest / 3600000) +:+ ":" +:+ pad 2 (rest / 60000 mod 60) +:+ ":" +:+
  pad 2 (rest / 1000 mod 60) +:+ "." +:+ pad 3 (rest mod 1000) +:+ "Z".

Definition runtime (clock : nat -> Z) : Runtime :=
  {| JSON_parse := JSON.parse;
     Date_getTime := getTime;
     Date_toISOString := toISOString;
     system_clock := clock |}.

(** *** Paths: the segments joined by a slash.  The normalisation that
    [path.join] also performs changes nothing on the paths used here, which
    have no empty, [.] or [..] segment. *)
Fixpoint join (segments : list string) : string :=
  match segments with
  | [] => "."
  | [segment] => segment
  | segment :: rest => segment +:+ "/" +:+ join rest
  end.

(** *** An in-memory file system *)
Record MemFs : Type := {
  mem_files : gmap string string;
  mem_directories : gmap string (list (string * FileType))
}.

Definition host (home : string) (folders : option (list string)) (fs : MemFs) : Host :=
  {| path_join := join;
     homedir := home;
     workspaceFolders := folders;
     fs_stat := fun p =>
       bool_decide (is_Some (mem_files fs !! p)) || bool_decide (is_Some (mem_directories fs !! p));
     fs_readFile := fun p =>
       match mem_files fs !! p with
       | Some content => Return content
       | None => Throw (Error "EntryNotFound (FileSystemError)")
       end;
     fs_readDirectory := fun p =>
       match mem_directories fs !! p with
       | Some entries => Return entries
       | None => Throw (Error "EntryNotFound (FileSystemError)")
       end |}.

End Reference.

(** ** Vocabulary of the statements *)

(** JSON text written with apostrophes in place of double quotes. *)
Fixpoint json_text (s : string) : string :=
  match s with
  | EmptyString => EmptyString
  | String c s' => String (if Ascii.eqb c "'" then "034"%char else c) (json_text s')
  end.

(** The placeholder document of the offline mode, as text. *)
Definition offline_placeholder : string :=
  json_text ("{'status':'success','message':'[yougao 离线模式] 工作流已处理完成'," +:+
             "'values':{'workflow':{'name':'offline-workflow'," +:+
             "'description':'离线模式生成的工作流','nodes':[],'edges':[]}}}").

(** What a cancellation that finds no record returns. *)
Definition not_cancelled : ClaudeCodeService.CancelResult :=
  {| ClaudeCodeService.cancelled := false;
     ClaudeCodeService.cancel_executionTimeMs := None |}.

(** The second world differs from the first by one logged warning only: no
    record, flag, timer or clock reading has changed and no signal was
    sent. *)
Definition only_warned (w w' : ClaudeCodeService.World) : Prop :=
  ClaudeCodeService.activeProcesses w' = ClaudeCodeService.activeProcesses w /\
  ClaudeCodeService.killedFlags w' = ClaudeCodeService.killedFlags w /\
  ClaudeCodeService.timers w' = ClaudeCodeService.timers w /\
  ClaudeCodeService.clockReads w' = ClaudeCodeService.clockReads w /\
  exists line,
    ClaudeCodeService.effects w' =
    ClaudeCodeService.effects w ++ [ClaudeCodeService.Logged "WARN" line].

(** A clock that stands at 0 for the first reading and at [later] from
    then on. *)
Definition clock_jumping_to (later : Z) (reading : nat) : Z :=
  match reading with
  | O => 0%Z
  | S _ => later
  end.

(** *** Strings and the result extractor *)

(** Case analysis on the eight bits of a character. *)
Ltac case_ascii c := destruct c as [[] [] [] [] [] [] [] []].

(** [p] occurs in [s] at position [i]. *)
Definition occurs_at (p s : string) (i : nat) : Prop :=
  exists a b, s = a +:+ p +:+ b /\ String.length a = i.

Definition first_occurrence (p s : string) (i : nat) : Prop :=
  occurs_at p s i /\ forall j, j < i -> ~ occurs_at p s j.

Definition last_occurrence (p s : string) (i : nat) : Prop :=
  occurs_at p s i /\ forall j, i < j -> ~ occurs_at p s j.

Fixpoint last_char (s : string) : option ascii :=
  match s with
  | EmptyString => None
  | String c EmptyString => Some c
  | String _ s' => last_char s'
  end.

Fixpoint str_all (P : ascii -> bool) (s : string) : bool :=
  match s with
  | EmptyString => true
  | String c s' => P c && str_all P s'
  end.

Definition is_digit (c : ascii) : bool :=
  match JSON.digit_of c with
  | Some _ => true
  | None => false
  end.

(** The characters a JSON text can begin with. *)
Definition json_start (c : ascii) : bool :=
  match c with
  | "{" | "[" | "034" | "-" | "t" | "f" | "n" => true
  | _ => is_digit c
  end%char.

Definition is_object (v : json) : Prop :=
  match v with
  | JObj _ => True
  | _ => False
  end.

(** A text that begins like a JSON text and ends with a character that is
    no white space survives the fence's line feeds and the trims. *)
Definition tight (s : string) : Prop :=
  (exists c rest, s = String c rest /\ json_start c = true) /\
  (exists c, last_char s = Some c /\ Js.is_white_space c = false).

(** The line feed, and the two wrapped forms of a JSON text. *)
Definition LF : string := String "010" EmptyString.

Definition fence_json (text : string) : string :=
  "```json" +:+ LF +:+ text +:+ LF +:+ "```".

Definition prose_then_fence (text : string) : string :=
  "prose" +:+ LF +:+ fence_json text.

(** The outcome of one parse, with a parse error read as no result. *)
Definition parse_or_null (rt : Runtime) (text : string) : Exc json :=
  match JSON_parse rt text with
  | Return v => Return v
  | Throw _ => Return JNull
  end.

Definition is_fenced_block (t : string) : Prop :=
  exists body, t = "```json" +:+ body +:+ "```".

Definition starts_with_brace (t : string) : Prop :=
  exists rest, t = "{" +:+ rest.

(** [t] holds a tagged opening fence, first at the end of [a], and the last
    fence marker of [t] comes after a non-empty [interior]. *)
Definition embedded_block (t a interior b : string) : Prop :=
  t = a +:+ "```json" +:+ interior +:+ "```" +:+ b /\
  first_occurrence "```json" t (String.length a) /\
  last_occurrence "```" t (String.length a + 7 + String.length interior) /\
  interior <> EmptyString.

Inductive Strategy : Type := Fenced | RawObject | Embedded | Fallback.

(** The extraction strategies in the words of the design: which strategy
    is the first to match the trimmed output [t], and the text it parses. *)
Inductive selects (t : string) : Strategy -> string -> Prop :=
| selects_fenced body :
    t = "```json" +:+ body +:+ "```" ->
    selects t Fenced (Js.trim body)
| selects_raw :
    ~ is_fenced_block t -> starts_with_brace t ->
    selects t RawObject t
| selects_embedded a interior b :
    ~ is_fenced_block t -> ~ starts_with_brace t ->
    embedded_block t a interior b ->
    selects t Embedded (Js.trim interior)
| selects_fallback :
    ~ is_fenced_block t -> ~ starts_with_brace t ->
    (forall a interior b, ~ embedded_block t a interior b) ->
    selects t Fallback t.

(** The three forms of the text of [v] from which the extractor yields
    [v] again: fenced, prose-prefixed, and, when [v] is an object or its
    text holds no tagged fence, bare. *)
Definition extracts_back (rt : Runtime) (v : json) : Prop :=
  ClaudeCodeService.parseClaudeCodeOutput rt (fence_json (JSON.stringify v)) = Return v /\
  ClaudeCodeService.parseClaudeCodeOutput rt (prose_then_fence (JSON.stringify v)) = Return v /\
  (is_object v \/ (forall i, ~ occurs_at "```json" (JSON.stringify v) i) ->
   ClaudeCodeService.parseClaudeCodeOutput rt (JSON.stringify v) = Return v).

(** The values of JavaScript proper: no object has two properties of the
    same name. *)
Fixpoint well_formed (v : json) : Prop :=
  match v with
  | JArr items =>
      (fix all (l : list json) : Prop :=
         match l with
         | [] => True
         | x :: l' => well_formed x /\ all l'
         end) items
  | JObj members =>
      NoDup (map fst members) /\
      (fix all (l : list (string * json)) : Prop :=
         match l with
         | [] => True
         | kv :: l' => well_formed kv.2 /\ all l'
         end) members
  | _ => True
  end.

(** A bound on the recursion depth [parse_value] needs for the text of a
    value. *)
Fixpoint parse_depth (v : json) : nat :=
  match v with
  | JArr items => S (foldr (fun x n => S (parse_depth x) + n) 0 items)
  | JObj members => S (foldr (fun kv n => S (parse_depth kv.2) + n) 0 members)
  | _ => 1
  end.

(** What may follow a value inside a JSON text: nothing, or one of the
    delimiters of an array or an object. *)
Definition delimited (rest : string) : Prop :=
  match rest with
  | EmptyString => True
  | String c _ => c = ","%char \/ c = "]"%char \/ c = "}"%char
  end.

(** The text of [v], followed by a delimiter or by nothing, is parsed
    back to [v] with nothing else consumed. *)
Definition reads_back (v : json) : Prop :=
  forall fuel rest,
    parse_depth v <= fuel -> delimited rest ->
    JSON.parse_value fuel (JSON.stringify v +:+ rest) = Some (v, rest).

Definition member_text (kv : string * json) : string :=
  JSON.quote kv.1 +:+ ":" +:+ JSON.stringify kv.2.

(** *** The workflow store *)

(** Descending order of a key. *)
Definition descending {A : Type} (key : A -> Z) (a b : A) : Prop := (key b <= key a)%Z.

(** ** Scenarios

    A workspace at [/work] and a home directory at [/home/user], so that
    the legacy workspace root is [/work/.vscode/workflows] and, with the
    shipped configuration, the offline root is
    [/home/user/.yougao/workflows]. *)

Definition scenario_service : FileService.t :=
  {| FileService.workspacePath := "/work";
     FileService.workflowsDirectory := "/work/.vscode/workflows";
     FileService.offlineWorkflowsDirectory := "/home/user/.yougao/workflows" |}.

Definition scenario_host (fs : Reference.MemFs) : Host :=
  Reference.host "/home/user" (Some ["/work"]) fs.

Definition scenario_runtime : Runtime := Reference.runtime (fun _ => 1717245296789%Z).

(** A directory holding the given documents, each in the file
    [name.json]. *)
Definition directory_of (dir : string) (documents : list (string * string))
  : list (string * string) * (string * list (string * FileType)) :=
  (map (fun d => (dir +:+ "/" +:+ d.1 +:+ ".json", d.2)) documents,
   (dir, map (fun d => (d.1 +:+ ".json", FT_File)) documents)).

Definition file_system (roots : list (string * list (string * string))) : Reference.MemFs :=
  let dirs := map (fun r => directory_of r.1 r.2) roots in
  {| Reference.mem_files := list_to_map (concat (map fst dirs));
     Reference.mem_directories := list_to_map (map snd dirs) |}.

(** The document [w] exists in the legacy workspace root only. *)
Definition legacy_only : Reference.MemFs :=
  file_system
    [("/work/.vscode/workflows", [("w", json_text "{'name':'w','updatedAt':'2024-01-01'}")])].

(** The active (offline) root holds [x] and [y], the legacy workspace root
    holds [y] and [z]. *)
Definition two_roots : Reference.MemFs :=
  file_system
    [("/home/user/.yougao/workflows",
      [("x", json_text "{'name':'x of A','updatedAt':'2024-03-01'}");
       ("y", json_text "{'name':'y of A','updatedAt':'2024-02-01'}")]);
     ("/work/.vscode/workflows",
      [("y", json_text "{'name':'y of B','updatedAt':'2024-05-01'}");
       ("z", json_text "{'name':'z of B','updatedAt':'2024-04-01'}")])].

(** Three documents of the active root, in directory order [a], [b], [c]. *)
Definition three_dates : Reference.MemFs :=
  file_system
    [("/home/user/.yougao/workflows",
      [("a", json_text "{'updatedAt':'2024-01-01'}");
       ("b", json_text "{'updatedAt':'2024-06-01'}");
       ("c", json_text "{'updatedAt':'2024-03-01'}")])].

(** Three documents of the active root, in directory order [a], [g],
    [e]; the date of the second is no date. *)
Definition one_invalid_date : Reference.MemFs :=
  file_system
    [("/home/user/.yougao/workflows",
      [("a", json_text "{'updatedAt':'2024-03-01'}");
       ("g", json_text "{'updatedAt':'garbage'}");
       ("e", json_text "{'updatedAt':'2024-09-01'}")])].

(** [a] is at least as recent as [b], both dates being valid. *)
Definition newer_or_equal (rt : Runtime) (a b : WorkflowInfo) : Prop :=
  exists ta tb,
    Date_getTime rt (info_updatedAt a) = Return (Some ta) /\
    Date_getTime rt (info_updatedAt b) = Return (Some tb) /\ (tb <= ta)%Z.

(** The invariant of the scans: the identifiers of the gathered entries
    are pairwise distinct, and all of them are in [processedFiles]. *)
Definition deduplicated (st : LoadWorkflowList.Scan) : Prop :=
  NoDup (map LoadWorkflowList.id (LoadWorkflowList.workflows st)) /\
  forall e, e ∈ LoadWorkflowList.workflows st ->
            LoadWorkflowList.id e ∈ LoadWorkflowList.processedFiles st.

(** The file an entry of the listing is read from, and the directory a
    scan reads, by directory type. *)
Definition entry_file (h : Host) (offlineConfig : OfflineConfig.t)
  (fileService : FileService.t) (directoryType : LoadWorkflowList.DirectoryType)
  (workflowId : string) : string :=
  match directoryType with
  | LoadWorkflowList.offline => FileService.getOfflineWorkflowFilePath h fileService workflowId
  | _ => FileService.getWorkflowFilePath h offlineConfig fileService workflowId
  end.

Definition scan_directory (offlineConfig : OfflineConfig.t) (fileService : FileService.t)
  (directoryType : LoadWorkflowList.DirectoryType) : string :=
  match directoryType with
  | LoadWorkflowList.offline => FileService.getOfflineWorkflowsDirectory fileService
  | _ => FileService.getWorkflowsDirectory offlineConfig fileService
  end.

(** The entry of a directory listing cannot be turned into an entry of the
    workflow list: reading its document throws. *)
Definition entry_fails (rt : Runtime) (h : Host) (offlineConfig : OfflineConfig.t)
  (fileService : FileService.t) (directoryType : LoadWorkflowList.DirectoryType)
  (file : string * FileType) : bool :=
  match LoadWorkflowList.readEntry rt h offlineConfig fileService directoryType
          (Js.replace file.1 ".json" EmptyString) 0 with
  | Throw _ => true
  | Return _ => false
  end.

(** The active root holds a number, [null], a broken text and an object
    without properties. *)
Definition odd_documents : Reference.MemFs :=
  file_system
    [("/home/user/.yougao/workflows",
      [("n", "5"); ("z", "null"); ("bad", "{oops"); ("o", "{}")])].

(** Two documents of the active root; the timestamp of the second is an
    object whose [toString] and [valueOf] are numbers. *)
Definition one_throwing_date : Reference.MemFs :=
  file_system
    [("/home/user/.yougao/workflows",
      [("a", json_text "{'updatedAt':'2024-03-01'}");
       ("b", json_text "{'updatedAt':{'toString':1,'valueOf':2}}")])].

(** Three documents of the active root, the first and the last with the
    same date. *)
Definition tied_dates : Reference.MemFs :=
  file_system
    [("/home/user/.yougao/workflows",
      [("a", json_text "{'updatedAt':'2024-01-01'}");
       ("b", json_text "{'updatedAt':'2024-06-01'}");
       ("c", json_text "{'updatedAt':'2024-01-01'}")])].

(** *** Further vocabulary of the process service *)

Definition is_logged (e : ClaudeCodeService.Effect) : Prop :=
  match e with
  | ClaudeCodeService.Logged _ _ => True
  | ClaudeCodeService.Killed _ => False
  end.

Definition is_progress_timer (timer : Z * ClaudeCodeService.TimerCallback) : Prop :=
  match timer.2 with
  | ClaudeCodeService.InvokeProgress _ _ _ _ _ => True
  | ClaudeCodeService.ForceKill _ _ => False
  end.

(** The signals sent so far, oldest first. *)
Fixpoint signals (effects : list ClaudeCodeService.Effect) : list nat :=
  match effects with
  | [] => []
  | ClaudeCodeService.Killed pid :: rest => pid :: signals rest
  | ClaudeCodeService.Logged _ _ :: rest => signals rest
  end.

(** The object the placeholder text denotes. *)
Definition offline_placeholder_value : json :=
  JObj [("status", JStr "success");
        ("message", JStr "[yougao 离线模式] 工作流已处理完成");
        ("values", JObj [("workflow",
           JObj [("name", JStr "offline-workflow");
                 ("description", JStr "离线模式生成的工作流");
                 ("nodes", JArr []);
                 ("edges", JArr [])])])].

(** * Properties of the process service *)

Section ProcessService.

Import ClaudeCodeService.

Implicit Types (w : World) (requestId : string).

Lemma executeClaudeCodeCLI_frame prompt timeoutMs rid cwd model tools w :
  let w' := (executeClaudeCodeCLI prompt timeoutMs rid cwd model tools w).2 in
  activeProcesses w' = activeProcesses w /\ killedFlags w' = killedFlags w /\
  timers w' = timers w /\ clock w' = clock w.
Proof. repeat split. Qed.

Lemma executeClaudeCodeCLIStreaming_frame prompt cb timeoutMs rid cwd model tools w :
  let w' := (executeClaudeCodeCLIStreaming prompt cb timeoutMs rid cwd model tools w).2 in
  activeProcesses w' = activeProcesses w /\ killedFlags w' = killedFlags w /\
  clock w' = clock w.
Proof. repeat split. Qed.

Lemma cancelGeneration_registry requestId w :
  activeProcesses (cancelGeneration requestId w).2 = delete requestId (activeProcesses w).
Proof.
  unfold cancelGeneration, mbind, M_bind, activeProcesses_get.
  destruct (activeProcesses w !! requestId) as [gen|] eqn:Hgen; cbn.
  - reflexivity.
  - symmetry. by apply delete_id.
Qed.

Lemma cancelRefinement_registry requestId w :
  activeProcesses (cancelRefinement requestId w).2 = delete requestId (activeProcesses w).
Proof.
  unfold cancelRefinement, mbind, M_bind, activeProcesses_get.
  destruct (activeProcesses w !! requestId) as [gen|] eqn:Hgen; cbn.
  - reflexivity.
  - symmetry. by apply delete_id.
Qed.

Lemma fire_registry callback w :
  activeProcesses (fire callback w).2 = activeProcesses w.
Proof.
  destruct callback as [pid warning|cb chunk d e ct]; cbn; [|reflexivity].
  destruct (decide (pid ∈ killedFlags w)); reflexivity.
Qed.

(** No step of the module ever adds a record to the registry. *)
Lemma step_registry_shrinks w w' :
  step w w' -> activeProcesses w' ⊆ activeProcesses w.
Proof.
  intros Hstep. destruct Hstep.
  - reflexivity.
  - reflexivity.
  - rewrite cancelGeneration_registry. apply delete_subseteq.
  - rewrite cancelRefinement_registry. apply delete_subseteq.
  - rewrite fire_registry. reflexivity.
Qed.

Lemma reachable_registry_empty clock w :
  reachable clock w -> activeProcesses w = ∅.
Proof.
  induction 1 as [|w w' Hreach IH Hstep].
  - reflexivity.
  - apply step_registry_shrinks in Hstep. rewrite IH in Hstep.
    apply map_empty. intros i.
    destruct (activeProcesses w' !! i) eqn:E; [|reflexivity].
    eapply lookup_weaken in E; [|exact Hstep]. by rewrite lookup_empty in E.
Qed.

(** C10. Whatever the prompt, timeout, request identifier, working
    directory, model and tool list, and in whatever state, the one-shot and
    the streaming execution both return [success = true], no error, and the
    same constant JSON text as [output]. *)
Theorem offline_placeholder_for_every_input
  prompt timeoutMs rid cwd model tools w
  prompt' onProgress timeoutMs' rid' cwd' model' tools' w' :
  let once := (executeClaudeCodeCLI prompt timeoutMs rid cwd model tools w).1 in
  let streamed :=
    (executeClaudeCodeCLIStreaming prompt' onProgress timeoutMs' rid' cwd' model' tools' w').1 in
  (success once = true /\ output once = Some offline_placeholder /\ error once = None) /\
  (success streamed = true /\ output streamed = Some offline_placeholder /\
   error streamed = None).
Proof.
  cbn zeta. split; (split; [reflexivity|split; [|reflexivity]]).
  - unfold executeClaudeCodeCLI, mbind, M_bind. cbn [fst output].
    vm_compute. reflexivity.
  - unfold executeClaudeCodeCLIStreaming, mbind, M_bind. cbn [fst output].
    vm_compute. reflexivity.
Qed.

(** C7. Cancelling a request identifier that has no entry in the registry
    returns [{cancelled: false}] with no elapsed time, for generation and
    for refinement alike, and changes nothing but the log. *)
Theorem cancel_of_unknown_request_is_noop requestId w :
  activeProcesses w !! requestId = None ->
  (cancelGeneration requestId w).1 = not_cancelled /\
  only_warned w (cancelGeneration requestId w).2 /\
  (cancelRefinement requestId w).1 = not_cancelled /\
  only_warned w (cancelRefinement requestId w).2.
Proof.
  intros Hnone.
  unfold cancelGeneration, cancelRefinement, mbind, M_bind, activeProcesses_get.
  rewrite Hnone. cbn.
  repeat split; eexists; reflexivity.
Qed.

Lemma cancel_of_unknown_request_is_noop_witness :
  let w := initial (fun _ => 0%Z) in
  (cancelGeneration "req-1" w).1 = not_cancelled /\
  only_warned w (cancelGeneration "req-1" w).2 /\
  (cancelRefinement "req-1" w).1 = not_cancelled /\
  only_warned w (cancelRefinement "req-1" w).2.
Proof.
  apply (cancel_of_unknown_request_is_noop "req-1" (initial (fun _ => 0%Z))).
  reflexivity.
Defined.

(** C2, as the claim states it, fails: after a generation is started for
    the identifier [r] the registry has no record for [r], and a second
    start for the same identifier succeeds. *)
Lemma start_registers_nothing_counterexample :
  let w0 := initial (fun _ => 0%Z) in
  let first := executeClaudeCodeCLI "prompt" None (Some "r") None None None w0 in
  let second := executeClaudeCodeCLI "prompt" None (Some "r") None None None first.2 in
  activeProcesses first.2 !! "r" = None /\
  success second.1 = true /\ error second.1 = None.
Proof. repeat split. Qed.

(** C2, amended. Starting a generation, one-shot or streaming, leaves the
    registry as it was and succeeds whether or not the identifier is
    registered; no step of the module inserts a record, so in every
    reachable state the registry is empty and no identifier has more than
    one record. *)
Theorem start_leaves_registry_unchanged :
  (forall prompt timeoutMs rid cwd model tools w,
     let r := executeClaudeCodeCLI prompt timeoutMs rid cwd model tools w in
     activeProcesses r.2 = activeProcesses w /\ success r.1 = true /\ error r.1 = None) /\
  (forall prompt onProgress timeoutMs rid cwd model tools w,
     let r := executeClaudeCodeCLIStreaming prompt onProgress timeoutMs rid cwd model tools w in
     activeProcesses r.2 = activeProcesses w /\ success r.1 = true /\ error r.1 = None) /\
  (forall clock w, reachable clock w ->
     activeProcesses w = ∅ /\
     forall requestId,
       length (filter (fun kv => kv.1 = requestId) (map_to_list (activeProcesses w))) <= 1).
Proof.
  split; [|split].
  - intros. repeat split.
  - intros. repeat split.
  - intros clock w Hreach. apply reachable_registry_empty in Hreach.
    split; [exact Hreach|]. intros requestId. rewrite Hreach, map_to_list_empty. cbn. lia.
Qed.

Lemma start_leaves_registry_unchanged_witness :
  let w := (executeClaudeCodeCLI "prompt" None (Some "r") None None None
              (initial (fun _ => 0%Z))).2 in
  activeProcesses w = ∅ /\
  forall requestId,
    length (filter (fun kv => kv.1 = requestId) (map_to_list (activeProcesses w))) <= 1.
Proof.
  apply (proj2 (proj2 start_leaves_registry_unchanged) (fun _ => 0%Z)).
  eapply reachable_step; [apply reachable_initial|].
  apply (step_execute "prompt" None (Some "r") None None None).
Defined.

(** C3, as the claim states it, fails: with a timeout of 50 ms and a clock
    that has advanced by 100000 ms, the run-to-completion execution still
    returns [success = true] with no error. *)
Lemma timeout_not_enforced_counterexample :
  let w0 := initial (clock_jumping_to 100000) in
  let r := executeClaudeCodeCLI "prompt" (Some 50%Z) (Some "r") None None None w0 in
  success r.1 = true /\ error r.1 = None /\ executionTimeMs r.1 = 1000%Z /\
  killedFlags r.2 = ∅.
Proof. repeat split. Qed.

(** C3, amended. The run-to-completion execution starts no process and
    enforces no timeout: for every requested timeout and every clock it
    returns [success = true] with no error, reports the elapsed time capped
    at 1000 ms, and sends no signal and schedules no timer. *)
Theorem run_to_completion_ignores_timeout prompt timeoutMs rid cwd model tools w :
  let r := executeClaudeCodeCLI prompt timeoutMs rid cwd model tools w in
  success r.1 = true /\ error r.1 = None /\
  executionTimeMs r.1 =
    Z.min (clock w (S (clockReads w)) - clock w (clockReads w)) 1000 /\
  killedFlags r.2 = killedFlags w /\ timers r.2 = timers w /\
  activeProcesses r.2 = activeProcesses w.
Proof. repeat split. Qed.

End ProcessService.

(** * Properties of the workflow store *)


(** ** Sorting *)

Section SortByKey.

Context {A : Type} (key : A -> Z) (comparefn : A -> A -> Exc (option Z)).

Lemma sort_insert_perm x (l l' : list A) :
  sort_insert comparefn x l = Return l' -> Permutation l' (x :: l).
Proof.
  revert l'. induction l as [|y l IH]; intros l' Hsort; cbn in Hsort.
  - by injection Hsort as <-.
  - destruct (comparefn x y) as [v|e]; [cbn in Hsort|discriminate].
    destruct (compare_result v >? 0)%Z.
    + destruct (sort_insert comparefn x l) as [rest|e]; [cbn in Hsort|discriminate].
      injection Hsort as <-. rewrite (IH rest eq_refl). apply perm_swap.
    + by injection Hsort as <-.
Qed.

Lemma Array_sort_perm (l l' : list A) :
  Array_sort comparefn l = Return l' -> Permutation l' l.
Proof.
  revert l'. induction l as [|x l IH]; intros l' Hsort; cbn in Hsort.
  - by injection Hsort as <-.
  - destruct (Array_sort comparefn l) as [sorted|e]; [cbn in Hsort|discriminate].
    rewrite (sort_insert_perm _ _ _ Hsort). constructor. by apply IH.
Qed.

(** The sort throws only what a call of the comparator on two of its
    elements throws, and returns when these calls all return. *)
Lemma sort_insert_throws x (l : list A) e :
  sort_insert comparefn x l = Throw e -> exists y, y ∈ l /\ comparefn x y = Throw e.
Proof.
  induction l as [|y l IH]; intros Hsort; cbn in Hsort; [discriminate|].
  destruct (comparefn x y) as [v|e'] eqn:Hxy; cbn in Hsort.
  - destruct (compare_result v >? 0)%Z; [|discriminate].
    destruct (sort_insert comparefn x l) as [rest|e'] eqn:Hrest; [discriminate|].
    injection Hsort as ->. destruct (IH eq_refl) as (z & Hz & Hthrows).
    exists z. split; [by right|exact Hthrows].
  - injection Hsort as ->. exists y. split; [left|exact Hxy].
Qed.

Lemma Array_sort_throws (l : list A) e :
  Array_sort comparefn l = Throw e ->
  exists x y, x ∈ l /\ y ∈ l /\ comparefn x y = Throw e.
Proof.
  induction l as [|x l IH]; intros Hsort; cbn in Hsort; [discriminate|].
  destruct (Array_sort comparefn l) as [sorted|e'] eqn:Hsorted; cbn in Hsort.
  - apply sort_insert_throws in Hsort as (y & Hy & Hthrows).
    exists x, y. split; [left|]. split; [|exact Hthrows].
    right. by rewrite <- (Array_sort_perm _ _ Hsorted).
  - injection Hsort as ->. destruct (IH eq_refl) as (a & b & Ha & Hb & Hthrows).
    exists a, b. split; [by right|]. split; [by right|exact Hthrows].
Qed.

Lemma Array_sort_returns (l : list A) :
  (forall x y, x ∈ l -> y ∈ l -> exists v, comparefn x y = Return v) ->
  exists l', Array_sort comparefn l = Return l'.
Proof.
  intros Hreturns. destruct (Array_sort comparefn l) as [l'|e] eqn:Hsort; [by exists l'|].
  apply Array_sort_throws in Hsort as (x & y & Hx & Hy & Hthrows).
  destruct (Hreturns x y Hx Hy) as [v Hv]. congruence.
Qed.

Lemma sort_insert_sorted x (l l' : list A) :
  Forall (fun y => comparefn x y = Return (Some (key y - key x)%Z)) l ->
  StronglySorted (descending key) l ->
  sort_insert comparefn x l = Return l' ->
  StronglySorted (descending key) l'.
Proof.
  revert l'. induction l as [|y l IH]; intros l' Hcmp Hsorted Hsort; cbn in Hsort.
  - injection Hsort as <-. repeat constructor.
  - apply Forall_cons in Hcmp as [Hy Hcmp].
    apply StronglySorted_inv in Hsorted as [Hsorted Hall].
    rewrite Hy in Hsort. cbn in Hsort.
    destruct (key y - key x >? 0)%Z eqn:Hgt.
    + destruct (sort_insert comparefn x l) as [rest|e] eqn:Hrest; [cbn in Hsort|discriminate].
      injection Hsort as <-.
      constructor; [by apply IH|].
      eapply Permutation_Forall; [symmetry; apply (sort_insert_perm _ _ _ Hrest)|].
      constructor; [unfold descending; lia|exact Hall].
    + injection Hsort as <-.
      constructor; [by constructor|].
      constructor; [unfold descending; lia|].
      eapply Forall_impl; [exact Hall|]. unfold descending. intros; cbn in *. lia.
Qed.

(** When the comparator is the difference of the keys on the elements of
    the list, the sort returns, and the sorted list is in descending key
    order. *)
Lemma Array_sort_sorted (l : list A) :
  Forall (fun x => Forall (fun y => comparefn x y = Return (Some (key y - key x)%Z)) l) l ->
  exists l', Array_sort comparefn l = Return l' /\ StronglySorted (descending key) l'.
Proof.
  intros Hcmp.
  assert (Hsub : forall sub, sub ⊆ l ->
            exists l', Array_sort comparefn sub = Return l' /\
                       StronglySorted (descending key) l').
  { induction sub as [|x sub IH]; intros Hin; cbn.
    - exists []. split; [reflexivity|constructor].
    - destruct IH as (sorted & Hrec & Hsorted); [intros z Hz; apply Hin; by right|].
      rewrite Hrec. cbn.
      assert (Hx : Forall (fun y => comparefn x y = Return (Some (key y - key x)%Z)) sorted).
      { rewrite Forall_forall in Hcmp.
        assert (Hx : x ∈ l) by (apply Hin; left).
        apply Hcmp in Hx. rewrite Forall_forall in Hx.
        apply Forall_forall. intros y Hy. apply Hx, Hin. right.
        by rewrite <- (Array_sort_perm _ _ Hrec). }
      destruct (sort_insert comparefn x sorted) as [l'|e] eqn:Hinsert.
      + exists l'. split; [reflexivity|]. by apply (sort_insert_sorted x sorted).
      + apply sort_insert_throws in Hinsert as (y & Hy & Hthrows).
        rewrite Forall_forall in Hx. rewrite (Hx y Hy) in Hthrows. discriminate. }
  by apply Hsub.
Qed.

End SortByKey.

Lemma StronglySorted_map {A B : Type} (R : A -> A -> Prop) (R' : B -> B -> Prop)
  (f : A -> B) (l : list A) :
  (forall a b, a ∈ l -> b ∈ l -> R a b -> R' (f a) (f b)) ->
  StronglySorted R l -> StronglySorted R' (map f l).
Proof.
  induction l as [|x l IH]; intros Himp Hsorted; cbn.
  - constructor.
  - apply StronglySorted_inv in Hsorted as [Hsorted Hall].
    constructor.
    + apply IH; [|exact Hsorted]. intros a b Ha Hb. apply Himp; by right.
    + apply Forall_map. apply Forall_forall. intros y Hy.
      apply Himp; [left|by right|]. rewrite Forall_forall in Hall. by apply Hall.
Qed.

(** ** Loading one workflow *)

Section Load.

Import LoadWorkflow.

Variables (rt : Runtime) (h : Host) (offlineConfig : OfflineConfig.t).
Variable migrateWorkflow : json -> Exc json.
Variable fileService : FileService.t.

#[local] Abbreviation active_path workflowId :=
  (FileService.getWorkflowFilePath h offlineConfig fileService workflowId).

#[local] Abbreviation offline_path workflowId :=
  (FileService.getOfflineWorkflowFilePath h fileService workflowId).

(** The third branch of [locate] tests the path the first branch has just
    found missing: what [locate] computes is a two-tier search. *)
Lemma locate_two_tiers workflowId :
  locate h offlineConfig fileService workflowId =
  if fs_stat h (active_path workflowId) then (active_path workflowId, "current")
  else if OfflineConfig.isOffline offlineConfig && fs_stat h (offline_path workflowId)
       then (offline_path workflowId, "offline")
       else (EmptyString, EmptyString).
Proof.
  unfold locate, FileService.fileExists.
  destruct (fs_stat h (FileService.getWorkflowFilePath h offlineConfig fileService workflowId))
    eqn:Hactive; [reflexivity|].
  destruct (OfflineConfig.isOffline offlineConfig); cbn.
  - destruct (fs_stat h _); reflexivity.
  - reflexivity.
Qed.

(** A document of the active root is the one returned, whatever the other
    roots contain. *)
Lemma load_prefers_active_root workflowId requestId content parsed workflow :
  active_path workflowId <> EmptyString ->
  fs_stat h (active_path workflowId) = true ->
  fs_readFile h (active_path workflowId) = Return content ->
  JSON_parse rt content = Return parsed ->
  migrateWorkflow parsed = Return workflow ->
  loadWorkflow rt h offlineConfig migrateWorkflow fileService workflowId requestId =
  LOAD_WORKFLOW requestId workflow.
Proof.
  intros Hne Hstat Hread Hparse Hmigrate.
  unfold loadWorkflow. rewrite locate_two_tiers, Hstat.
  apply String.eqb_neq in Hne. rewrite Hne.
  unfold FileService.readFile. rewrite Hread. cbn.
  rewrite Hparse. cbn. rewrite Hmigrate. reflexivity.
Qed.

(** When the active root lacks the document and the mode is offline, only
    the offline root, which then is the active root itself, is asked. *)
Lemma load_offline_never_reads_workspace_root workflowId requestId :
  OfflineConfig.isOffline offlineConfig = true ->
  fs_stat h (offline_path workflowId) = false ->
  exists message,
    loadWorkflow rt h offlineConfig migrateWorkflow fileService workflowId requestId =
    ERROR requestId "LOAD_FAILED" message.
Proof.
  intros Hoffline Hstat.
  unfold loadWorkflow. rewrite locate_two_tiers.
  assert (Hsame : active_path workflowId = offline_path workflowId).
  { unfold FileService.getWorkflowFilePath,
      FileService.getOfflineWorkflowFilePath, FileService.getCurrentStorageDirectory.
    by rewrite Hoffline. }
  rewrite Hsame, Hstat, Hoffline. cbn. eexists. reflexivity.
Qed.

End Load.

(** C1 at an input where the code departs from it: in offline mode (the
    shipped configuration) a document that exists only in the legacy
    workspace root is reported as not found, although the claim has the
    legacy root searched last. *)
Theorem legacy_root_not_searched_by_load :
  let h := scenario_host legacy_only in
  FileService.constructor h OfflineConfig.config = Return scenario_service /\
  fs_readFile h (path_join h [FileService.workflowsDirectory scenario_service; "w.json"])
    = Return (json_text "{'name':'w','updatedAt':'2024-01-01'}") /\
  LoadWorkflow.loadWorkflow scenario_runtime h OfflineConfig.config Return
    scenario_service "w" None
  = ERROR None "LOAD_FAILED" (json_text "Workflow 'w' not found in any storage location").
Proof. cbn zeta. split; [|split]; vm_compute; reflexivity. Qed.

(** ** Listing the workflows *)

Section Listing.

Import LoadWorkflowList.

Variables (rt : Runtime) (h : Host) (offlineConfig : OfflineConfig.t).
Variable fileService : FileService.t.

Lemma readEntry_id directoryType workflowId reads entry reads' :
  readEntry rt h offlineConfig fileService directoryType workflowId reads
    = Return (entry, reads') ->
  id entry = workflowId /\ source entry = directoryType.
Proof.
  unfold readEntry. intros Hread.
  destruct (FileService.readFile h _) as [content|]; [cbn in Hread|discriminate].
  destruct (JSON_parse rt content) as [workflow|]; [cbn in Hread|discriminate].
  destruct (get_property workflow "name") as [name|]; [cbn in Hread|discriminate].
  destruct (get_property workflow "description") as [description|]; [cbn in Hread|discriminate].
  destruct (get_property workflow "updatedAt") as [updated|]; [cbn in Hread|discriminate].
  match type of Hread with
  | (let '(_, _) := ?scrutinee in _) = _ => destruct scrutinee as [u r]
  end.
  inversion Hread; subst. split; reflexivity.
Qed.

Lemma visit_deduplicated directoryType st file :
  deduplicated st -> deduplicated (visit rt h offlineConfig fileService directoryType st file).
Proof.
  intros [Hnodup Hin]. unfold visit. destruct file as [filename fileType].
  destruct fileType; try (split; assumption).
  destruct (Js.endsWith filename ".json"); [|split; assumption].
  set (workflowId := Js.replace filename ".json" EmptyString).
  destruct (decide (workflowId ∈ processedFiles st)) as [|Hfresh]; [split; assumption|].
  destruct (readEntry rt h offlineConfig fileService directoryType workflowId (clockReads st))
    as [[entry reads]|] eqn:Hread; [|split; assumption].
  apply readEntry_id in Hread as [Hid _].
  split; cbn.
  - rewrite map_app. cbn. apply NoDup_app. split; [exact Hnodup|]. split.
    + intros x Hx Hx'. apply list_elem_of_singleton in Hx'. subst x.
      apply list_elem_of_fmap in Hx as [e [He Hmem]].
      apply Hfresh. rewrite <- Hid, He. by apply Hin.
    + apply NoDup_singleton.
  - intros e He. apply elem_of_app in He as [He|He].
    + apply elem_of_union_l. by apply Hin.
    + apply list_elem_of_singleton in He. subst e. rewrite Hid. apply elem_of_union_r.
      by apply elem_of_singleton.
Qed.

Lemma loadWorkflowsFromDirectory_deduplicated st directoryType :
  deduplicated st ->
  deduplicated (loadWorkflowsFromDirectory rt h offlineConfig fileService st directoryType).
Proof.
  intros Hst. unfold loadWorkflowsFromDirectory.
  destruct (fs_readDirectory h _) as [files|]; [|exact Hst].
  revert st Hst. induction files as [|file files IH]; intros st Hst; cbn.
  - exact Hst.
  - apply IH. by apply visit_deduplicated.
Qed.

(** A scan only appends: the entries gathered so far keep their place and
    their source. *)
Lemma loadWorkflowsFromDirectory_extends st directoryType :
  exists added,
    workflows (loadWorkflowsFromDirectory rt h offlineConfig fileService st directoryType)
    = workflows st ++ added.
Proof.
  unfold loadWorkflowsFromDirectory.
  destruct (fs_readDirectory h _) as [files|]; [|exists []; by rewrite app_nil_r].
  revert st. induction files as [|file files IH]; intros st; cbn.
  - exists []. by rewrite app_nil_r.
  - destruct (IH (visit rt h offlineConfig fileService directoryType st file)) as [added ->].
    assert (Hvisit : exists one,
               workflows (visit rt h offlineConfig fileService directoryType st file)
               = workflows st ++ one).
    { unfold visit. destruct file as [filename [| | |]];
        try (exists []; by rewrite app_nil_r).
      destruct (Js.endsWith filename ".json"); [|exists []; by rewrite app_nil_r].
      destruct (decide _); [exists []; by rewrite app_nil_r|].
      destruct (readEntry _ _ _ _ _ _ _) as [[entry reads]|];
        [by exists [entry]|exists []; by rewrite app_nil_r]. }
    destruct Hvisit as [one ->]. exists (one ++ added). by rewrite app_assoc.
Qed.

(** The de-duplication key spans the whole merge: no identifier occurs
    twice among the gathered entries, whichever scans produced them. *)
Lemma gather_ids_distinct :
  NoDup (map id (workflows (gather rt h offlineConfig fileService))).
Proof.
  assert (Hinit : deduplicated {| workflows := []; processedFiles := ∅; clockReads := 0 |}).
  { split; cbn; [constructor|]. intros e He. by apply elem_of_nil in He. }
  unfold gather.
  apply loadWorkflowsFromDirectory_deduplicated.
  destruct (OfflineConfig.isOffline offlineConfig).
  - by do 2 apply loadWorkflowsFromDirectory_deduplicated.
  - by apply loadWorkflowsFromDirectory_deduplicated.
Qed.

(** The third scan reads the directory the first scan has read: the
    legacy workspace root is listed only when it is the active root. *)
Lemma workspace_scan_reads_active_root st :
  loadWorkflowsFromDirectory rt h offlineConfig fileService st workspace =
  match fs_readDirectory h (FileService.getCurrentStorageDirectory offlineConfig fileService) with
  | Return files => foldl (visit rt h offlineConfig fileService workspace) st files
  | Throw _ => st
  end.
Proof. reflexivity. Qed.

End Listing.

(** C8 at an input where the code departs from it: in offline mode, with
    [x] and [y] in the active root A and [y] and [z] in the legacy
    workspace root B, the gathered entries are [x] and [y], both from the
    first scan, and [z] is missing, although the claim has the listing
    yield [x], [y] and [z]. *)
Theorem legacy_root_missing_from_listing :
  let h := scenario_host two_roots in
  fs_readDirectory h (FileService.workflowsDirectory scenario_service)
    = Return [("y.json", FT_File); ("z.json", FT_File)] /\
  map (fun e => (LoadWorkflowList.id e, LoadWorkflowList.name e, LoadWorkflowList.source e))
      (LoadWorkflowList.workflows
         (LoadWorkflowList.gather scenario_runtime h OfflineConfig.config scenario_service))
  = [("x", JStr "x of A", LoadWorkflowList.current);
     ("y", JStr "y of A", LoadWorkflowList.current)] /\
  map info_id
      match LoadWorkflowList.loadWorkflowList scenario_runtime h OfflineConfig.config
              scenario_service None with
      | WORKFLOW_LIST_LOADED _ l => l
      | _ => []
      end
  = ["x"; "y"].
Proof. cbn zeta. split; [|split]; vm_compute; reflexivity. Qed.

(** C9 at an input where the claim, as it stands, fails: with the
    documents dated 2024-03-01, [garbage] and 2024-09-01, in this directory
    order, the comparator is NaN on every pair that the sort compares, and
    the list is posted in directory order, March before September. *)
Theorem listing_with_invalid_date_counterexample :
  exists listed,
    LoadWorkflowList.loadWorkflowList scenario_runtime (scenario_host one_invalid_date)
      OfflineConfig.config scenario_service None = WORKFLOW_LIST_LOADED None listed /\
    map info_updatedAt listed = [JStr "2024-03-01"; JStr "garbage"; JStr "2024-09-01"] /\
    Date_getTime scenario_runtime (JStr "2024-03-01") = Return (Some 1709251200000%Z) /\
    Date_getTime scenario_runtime (JStr "garbage") = Return None /\
    Date_getTime scenario_runtime (JStr "2024-09-01") = Return (Some 1725148800000%Z) /\
    ~ StronglySorted (newer_or_equal scenario_runtime) listed.
Proof.
  eexists. split; [vm_compute; reflexivity|]. split; [vm_compute; reflexivity|].
  split; [vm_compute; reflexivity|]. split; [vm_compute; reflexivity|].
  split; [vm_compute; reflexivity|].
  intros Hsorted. apply StronglySorted_inv in Hsorted as [_ Hfirst].
  apply Forall_cons in Hfirst as [(ta & tb & _ & Hgarbage & _) _].
  vm_compute in Hgarbage. discriminate.
Qed.

(** C9. Whenever every gathered entry carries a valid timestamp, the
    posted listing holds the gathered entries ordered newest first; and the
    documents dated 2024-01-01, 2024-06-01 and 2024-03-01 are listed in the
    order 2024-06-01, 2024-03-01, 2024-01-01. *)
Theorem listing_is_newest_first :
  (forall rt h offlineConfig fileService requestId,
     let gathered :=
       LoadWorkflowList.workflows (LoadWorkflowList.gather rt h offlineConfig fileService) in
     Forall (fun e => exists t, LoadWorkflowList.getTime rt e = Return (Some t)) gathered ->
     exists listed,
       LoadWorkflowList.loadWorkflowList rt h offlineConfig fileService requestId
         = WORKFLOW_LIST_LOADED requestId listed /\
       StronglySorted (newer_or_equal rt) listed /\
       Permutation listed (map LoadWorkflowList.withoutSource gathered)) /\
  (exists listed,
     LoadWorkflowList.loadWorkflowList scenario_runtime (scenario_host three_dates)
       OfflineConfig.config scenario_service None = WORKFLOW_LIST_LOADED None listed /\
     map info_updatedAt listed = [JStr "2024-06-01"; JStr "2024-03-01"; JStr "2024-01-01"]).
Proof.
  split.
  - intros rt h offlineConfig fileService requestId gathered Hvalid.
    set (key := fun e => match LoadWorkflowList.getTime rt e with
                         | Return (Some t) => t
                         | _ => 0%Z
                         end).
    assert (Hcmp : Forall (fun x => Forall (fun y =>
              LoadWorkflowList.byUpdatedAt rt x y = Return (Some (key y - key x)%Z))
                gathered) gathered).
    { rewrite Forall_forall in Hvalid.
      apply Forall_forall. intros x Hx. apply Forall_forall. intros y Hy.
      destruct (Hvalid x Hx) as [tx Htx]. destruct (Hvalid y Hy) as [ty Hty].
      unfold LoadWorkflowList.byUpdatedAt, key. rewrite Htx, Hty. reflexivity. }
    destruct (Array_sort_sorted key _ _ Hcmp) as (sorted & Hsort & Hsorted).
    pose proof (Array_sort_perm _ _ _ Hsort) as Hperm.
    exists (map LoadWorkflowList.withoutSource sorted).
    split; [|split].
    + unfold LoadWorkflowList.loadWorkflowList. fold gathered. by rewrite Hsort.
    + eapply StronglySorted_map; [|exact Hsorted].
      intros a b Ha Hb Hab. cbn beta in Hab.
      rewrite Hperm in Ha, Hb.
      rewrite Forall_forall in Hvalid.
      destruct (Hvalid a Ha) as [ta Hta]. destruct (Hvalid b Hb) as [tb Htb].
      exists ta, tb. unfold descending, key in Hab. rewrite Hta, Htb in Hab.
      repeat split; assumption.
    + by apply Permutation_map.
  - eexists. split; [vm_compute; reflexivity|]. vm_compute. reflexivity.
Qed.

Lemma listing_is_newest_first_witness :
  exists listed,
    LoadWorkflowList.loadWorkflowList scenario_runtime (scenario_host three_dates)
      OfflineConfig.config scenario_service (Some "req-1")
      = WORKFLOW_LIST_LOADED (Some "req-1") listed /\
    StronglySorted (newer_or_equal scenario_runtime) listed /\
    Permutation listed
      (map LoadWorkflowList.withoutSource
         (LoadWorkflowList.workflows
            (LoadWorkflowList.gather scenario_runtime (scenario_host three_dates)
               OfflineConfig.config scenario_service))).
Proof.
  apply (proj1 listing_is_newest_first scenario_runtime (scenario_host three_dates)
           OfflineConfig.config scenario_service (Some "req-1")).
  match goal with
  | |- Forall _ ?gathered => remember gathered as entries eqn:Hentries
  end.
  vm_compute in Hentries. subst entries.
  do 3 (constructor; [eexists; vm_compute; reflexivity|]). constructor.
Defined.

(** * Properties of the string built-ins *)

Section Strings.

Implicit Types (s p a b : string) (c : ascii).

Lemma append_assoc a b s : (a +:+ b) +:+ s = a +:+ (b +:+ s).
Proof. induction a as [|c a IH]; cbn; [reflexivity|by rewrite IH]. Qed.

Lemma append_empty_r s : s +:+ EmptyString = s.
Proof. induction s as [|c s IH]; cbn; [reflexivity|by rewrite IH]. Qed.

Lemma length_append a b : String.length (a +:+ b) = String.length a + String.length b.
Proof. induction a as [|c a IH]; cbn; [reflexivity|by rewrite IH]. Qed.

Lemma drop_append a b : Js.drop (String.length a) (a +:+ b) = b.
Proof. induction a as [|c a IH]; cbn; [by destruct b|exact IH]. Qed.

Lemma take_append a b : Js.take (String.length a) (a +:+ b) = a.
Proof. induction a as [|c a IH]; cbn; [by destruct b|by rewrite IH]. Qed.

Lemma take_drop n s : Js.take n s +:+ Js.drop n s = s.
Proof.
  revert s. induction n as [|n IH]; intros [|c s]; cbn; try reflexivity.
  by rewrite IH.
Qed.

Lemma take_length n s : n <= String.length s -> String.length (Js.take n s) = n.
Proof.
  revert s. induction n as [|n IH]; intros [|c s] Hn; cbn in *; try reflexivity; try lia.
  rewrite IH; lia.
Qed.

Lemma take_all s : Js.take (String.length s) s = s.
Proof. induction s as [|c s IH]; cbn; [reflexivity|by rewrite IH]. Qed.

Lemma drop_all s : Js.drop (String.length s) s = EmptyString.
Proof. induction s as [|c s IH]; cbn; [reflexivity|exact IH]. Qed.

Lemma prefix_append p b : String.prefix p (p +:+ b) = true.
Proof.
  induction p as [|c p IH]; cbn; [by destruct b|].
  destruct (ascii_dec c c); [exact IH|congruence].
Qed.

Lemma prefix_inv p s : String.prefix p s = true -> exists b, s = p +:+ b.
Proof.
  revert s. induction p as [|c p IH]; intros s Hp.
  - exists s. reflexivity.
  - destruct s as [|c' s]; cbn in Hp; [discriminate|].
    destruct (ascii_dec c c') as [->|]; [|discriminate].
    destruct (IH s Hp) as [b ->]. exists b. reflexivity.
Qed.

Lemma prefix_false_short p s : String.length s < String.length p -> String.prefix p s = false.
Proof.
  revert s. induction p as [|c p IH]; intros [|c' s] Hlen; cbn in *; try lia; try reflexivity.
  destruct (ascii_dec c c'); [apply IH; lia|reflexivity].
Qed.

Lemma occurs_at_0 p s : occurs_at p s 0 <-> String.prefix p s = true.
Proof.
  split.
  - intros (a & b & -> & Hlen). destruct a; [|discriminate]. exact (prefix_append p b).
  - intros Hp. destruct (prefix_inv _ _ Hp) as [b ->]. by exists EmptyString, b.
Qed.

Lemma occurs_at_S p c s i : occurs_at p (String c s) (S i) <-> occurs_at p s i.
Proof.
  split.
  - intros (a & b & Heq & Hlen). destruct a as [|c' a]; [discriminate|].
    cbn in Heq, Hlen. injection Heq as -> ->. exists a, b. split; [reflexivity|lia].
  - intros (a & b & -> & Hlen). exists (String c a), b. cbn. split; [reflexivity|lia].
Qed.

Lemma occurs_at_bound p s i : occurs_at p s i -> i + String.length p <= String.length s.
Proof. intros (a & b & -> & <-). rewrite !length_append. lia. Qed.

Lemma index_unfold p c s :
  String.index 0 p (String c s) =
  if String.prefix p (String c s) then Some 0
  else match String.index 0 p s with Some i => Some (S i) | None => None end.
Proof. reflexivity. Qed.

(** [String.index] finds the first occurrence. *)
Lemma index_first p s i : String.index 0 p s = Some i -> first_occurrence p s i.
Proof.
  revert i. induction s as [|c s IH]; intros i Hindex.
  - destruct p; [|discriminate]. injection Hindex as <-.
    split; [by exists EmptyString, EmptyString|intros j Hj; lia].
  - rewrite index_unfold in Hindex.
    destruct (String.prefix p (String c s)) eqn:Hp.
    + injection Hindex as <-. split; [by apply occurs_at_0|intros j Hj; lia].
    + destruct (String.index 0 p s) as [i'|]; [|discriminate].
      injection Hindex as <-. destruct (IH i' eq_refl) as [Hocc Hmin].
      split; [by apply occurs_at_S|].
      intros [|j] Hj Hocc'.
      * apply occurs_at_0 in Hocc'. congruence.
      * apply occurs_at_S in Hocc'. apply (Hmin j); [lia|exact Hocc'].
Qed.

Lemma index_none p s : String.index 0 p s = None -> forall i, ~ occurs_at p s i.
Proof.
  induction s as [|c s IH]; intros Hindex i Hocc.
  - destruct p; [discriminate|]. apply occurs_at_bound in Hocc. cbn in Hocc. lia.
  - rewrite index_unfold in Hindex.
    destruct (String.prefix p (String c s)) eqn:Hp; [discriminate|].
    destruct (String.index 0 p s) as [i'|] eqn:Hi; [discriminate|].
    destruct i as [|i].
    + apply occurs_at_0 in Hocc. congruence.
    + apply occurs_at_S in Hocc. by apply (IH eq_refl i).
Qed.

Lemma first_occurrence_unique p s i j :
  first_occurrence p s i -> first_occurrence p s j -> i = j.
Proof.
  intros [Hi Hmin] [Hj Hmin'].
  destruct (Nat.lt_trichotomy i j) as [Hlt|[Heq|Hlt]]; [|exact Heq|].
  - by destruct (Hmin' i Hlt).
  - by destruct (Hmin j Hlt).
Qed.

Lemma last_occurrence_unique p s i j :
  last_occurrence p s i -> last_occurrence p s j -> i = j.
Proof.
  intros [Hi Hmax] [Hj Hmax'].
  destruct (Nat.lt_trichotomy i j) as [Hlt|[Heq|Hlt]]; [|exact Heq|].
  - by destruct (Hmax j Hlt).
  - by destruct (Hmax' i Hlt).
Qed.

(** [indexOf] returns the first occurrence, and -1 exactly when there is
    none. *)
Lemma indexOf_first p s i : first_occurrence p s i -> Js.indexOf s p = Z.of_nat i.
Proof.
  intros Hfirst. unfold Js.indexOf.
  destruct (String.index 0 p s) as [i'|] eqn:Hindex.
  - apply index_first in Hindex. by rewrite (first_occurrence_unique _ _ _ _ Hfirst Hindex).
  - destruct Hfirst as [Hocc _]. by destruct (index_none _ _ Hindex i).
Qed.

Lemma indexOf_absent p s : (forall i, ~ occurs_at p s i) -> Js.indexOf s p = (-1)%Z.
Proof.
  intros Hnone. unfold Js.indexOf.
  destruct (String.index 0 p s) as [i|] eqn:Hindex; [|reflexivity].
  apply index_first in Hindex as [Hocc _]. by destruct (Hnone i).
Qed.

Lemma last_index_unfold p c s :
  Js.last_index p (String c s) =
  match Js.last_index p s with
  | Some i => Some (S i)
  | None => if String.prefix p (String c s) then Some 0 else None
  end.
Proof. reflexivity. Qed.

Lemma last_index_none p s : Js.last_index p s = None -> forall i, ~ occurs_at p s i.
Proof.
  induction s as [|c s IH]; intros Hlast i Hocc.
  - destruct p; [discriminate|]. apply occurs_at_bound in Hocc. cbn in Hocc. lia.
  - rewrite last_index_unfold in Hlast.
    destruct (Js.last_index p s) eqn:Hs; [discriminate|].
    destruct (String.prefix p (String c s)) eqn:Hp; [discriminate|].
    destruct i as [|i].
    + apply occurs_at_0 in Hocc. congruence.
    + apply occurs_at_S in Hocc. by apply (IH eq_refl i).
Qed.

(** [last_index] finds the last occurrence. *)
Lemma last_index_last p s i : Js.last_index p s = Some i -> last_occurrence p s i.
Proof.
  revert i. induction s as [|c s IH]; intros i Hlast.
  - destruct p; [|discriminate]. injection Hlast as <-.
    split; [by exists EmptyString, EmptyString|].
    intros j Hj Hocc. apply occurs_at_bound in Hocc. cbn in Hocc. lia.
  - rewrite last_index_unfold in Hlast.
    destruct (Js.last_index p s) as [i'|] eqn:Hrec.
    + injection Hlast as <-. destruct (IH i' eq_refl) as [Hocc Hmax].
      split; [by apply occurs_at_S|].
      intros [|j] Hj Hocc'; [lia|]. apply occurs_at_S in Hocc'. apply (Hmax j); [lia|exact Hocc'].
    + destruct (String.prefix p (String c s)) eqn:Hp; [|discriminate].
      injection Hlast as <-. split; [by apply occurs_at_0|].
      intros [|j] Hj Hocc'; [lia|]. apply occurs_at_S in Hocc'.
      by apply (last_index_none _ _ Hrec j).
Qed.

Lemma lastIndexOf_last p s i : last_occurrence p s i -> Js.lastIndexOf s p = Z.of_nat i.
Proof.
  intros Hlast. unfold Js.lastIndexOf.
  destruct (Js.last_index p s) as [i'|] eqn:Hindex.
  - apply last_index_last in Hindex. by rewrite (last_occurrence_unique _ _ _ _ Hlast Hindex).
  - destruct Hlast as [Hocc _]. by destruct (last_index_none _ _ Hindex i).
Qed.

End Strings.

Section Slices.

Implicit Types (s p a b m : string).

Lemma length_drop n s : String.length (Js.drop n s) = String.length s - n.
Proof.
  revert s. induction n as [|n IH]; intros [|c s]; cbn; try reflexivity; try lia.
  apply IH.
Qed.

Lemma clamp_index_of_nat len n : Js.clamp_index len (Z.of_nat n) = Nat.min n len.
Proof.
  unfold Js.clamp_index.
  destruct (Z.ltb_spec (Z.of_nat n) 0); [lia|]. by rewrite Nat2Z.id.
Qed.

Lemma clamp_index_negative len k :
  0 < k -> Js.clamp_index len (- Z.of_nat k) = len - k.
Proof.
  intros Hk. unfold Js.clamp_index.
  destruct (Z.ltb_spec (- Z.of_nat k) 0); lia.
Qed.

Lemma slice_from a b :
  Js.slice (a +:+ b) (Z.of_nat (String.length a)) None = b.
Proof.
  unfold Js.slice. rewrite clamp_index_of_nat, length_append.
  replace (Nat.min (String.length a) (String.length a + String.length b))
    with (String.length a) by lia.
  rewrite drop_append.
  replace (String.length a + String.length b - String.length a) with (String.length b) by lia.
  apply take_all.
Qed.

Lemma slice_strip_end m b :
  b <> EmptyString ->
  Js.slice (m +:+ b) 0 (Some (- Z.of_nat (String.length b))%Z) = m.
Proof.
  intros Hb. unfold Js.slice.
  assert (0 < String.length b) by (destruct b; [congruence|cbn; lia]).
  rewrite clamp_index_negative by assumption.
  change 0%Z with (Z.of_nat 0). rewrite clamp_index_of_nat, length_append.
  cbn [Nat.min Js.drop].
  replace (String.length m + String.length b - String.length b - 0)
    with (String.length m) by lia.
  apply take_append.
Qed.

Lemma slice_interior a m b :
  Js.slice (a +:+ m +:+ b)
    (Z.of_nat (String.length a))
    (Some (Z.of_nat (String.length a + String.length m))) = m.
Proof.
  unfold Js.slice. rewrite !clamp_index_of_nat, !length_append.
  replace (Nat.min (String.length a) (String.length a + (String.length m + String.length b)))
    with (String.length a) by lia.
  replace (Nat.min (String.length a + String.length m)
             (String.length a + (String.length m + String.length b)) - String.length a)
    with (String.length m) by lia.
  rewrite drop_append. apply take_append.
Qed.

Lemma startsWith_append p b : Js.startsWith (p +:+ b) p = true.
Proof. apply prefix_append. Qed.

Lemma endsWith_append a p : Js.endsWith (a +:+ p) p = true.
Proof.
  unfold Js.endsWith. rewrite length_append.
  destruct (String.length p <=? String.length a + String.length p) eqn:Hle;
    [|apply Nat.leb_gt in Hle; lia].
  replace (String.length a + String.length p - String.length p) with (String.length a) by lia.
  rewrite drop_append. apply String.eqb_refl.
Qed.

Lemma endsWith_inv s p : Js.endsWith s p = true -> exists a, s = a +:+ p.
Proof.
  unfold Js.endsWith. intros Hends.
  destruct (String.length p <=? String.length s); [|discriminate].
  apply String.eqb_eq in Hends.
  exists (Js.take (String.length s - String.length p) s).
  transitivity (Js.take (String.length s - String.length p) s +:+
                Js.drop (String.length s - String.length p) s).
  - symmetry. apply take_drop.
  - by rewrite Hends.
Qed.

Lemma endsWith_skip c s p :
  String.length p <= String.length s ->
  Js.endsWith (String c s) p = Js.endsWith s p.
Proof.
  intros Hlen. unfold Js.endsWith. cbn [String.length].
  destruct (String.length p <=? S (String.length s)) eqn:H1; [|apply Nat.leb_gt in H1; lia].
  destruct (String.length p <=? String.length s) eqn:H2; [|apply Nat.leb_gt in H2; lia].
  replace (S (String.length s) - String.length p) with (S (String.length s - String.length p))
    by lia.
  reflexivity.
Qed.

(** A text that starts with the tagged opening fence and ends with the
    fence marker is exactly a fenced block: the two cannot overlap. *)
Lemma fenced_block_inv s :
  Js.startsWith s "```json" = true -> Js.endsWith s "```" = true ->
  exists body, s = "```json" +:+ body +:+ "```".
Proof.
  intros Hstart Hend. apply prefix_inv in Hstart as [r ->].
  destruct r as [|c1 [|c2 [|c3 r]]];
    [vm_compute in Hend; discriminate
    |exfalso; revert Hend; clear; case_ascii c1; vm_compute; discriminate
    |exfalso; revert Hend; clear; vm_compute; discriminate|].
  cbn [String.append] in Hend.
  do 7 (rewrite endsWith_skip in Hend by (cbn; lia)).
  apply endsWith_inv in Hend as [body Hbody].
  exists body. cbn [String.append]. by rewrite Hbody.
Qed.

End Slices.

(** * Properties of the result extractor *)

Section Extractor.

Import ClaudeCodeService.

Variable rt : Runtime.

Implicit Types (t a b : string).

Lemma try_catch_parse text :
  try_catch (JSON_parse rt text) (fun _ => Return JNull) = parse_or_null rt text.
Proof. unfold parse_or_null. by destruct (JSON_parse rt text). Qed.

Lemma starts_with_brace_iff t : starts_with_brace t <-> Js.startsWith t "{" = true.
Proof.
  split.
  - intros [rest ->]. apply prefix_append.
  - intros Hp. apply prefix_inv in Hp. exact Hp.
Qed.

Lemma strategy_fenced_hit body :
  strategy_fenced rt ("```json" +:+ body +:+ "```") = Some (JSON_parse rt (Js.trim body)).
Proof.
  unfold strategy_fenced.
  rewrite startsWith_append.
  rewrite <- append_assoc, endsWith_append, append_assoc. cbn [andb].
  change 7%Z with (Z.of_nat (String.length "```json")). rewrite slice_from.
  change (-3)%Z with (- Z.of_nat (String.length "```"))%Z.
  rewrite slice_strip_end by discriminate. reflexivity.
Qed.

Lemma strategy_fenced_miss t : ~ is_fenced_block t -> strategy_fenced rt t = None.
Proof.
  intros Hnot. unfold strategy_fenced.
  destruct (Js.startsWith t "```json") eqn:Hs; [|reflexivity].
  destruct (Js.endsWith t "```") eqn:He; [|reflexivity].
  destruct Hnot. by apply fenced_block_inv.
Qed.

Lemma strategy_raw_miss t : ~ starts_with_brace t -> strategy_raw rt t = None.
Proof.
  intros Hnot. unfold strategy_raw.
  destruct (Js.startsWith t "{") eqn:Hs; [|reflexivity].
  destruct Hnot. by apply starts_with_brace_iff.
Qed.

Lemma strategy_embedded_hit t a interior b :
  embedded_block t a interior b ->
  strategy_embedded rt t = Some (JSON_parse rt (Js.trim interior)).
Proof.
  intros (Ht & Hfirst & Hlast & Hne). unfold strategy_embedded.
  rewrite (indexOf_first _ _ _ Hfirst), (lastIndexOf_last _ _ _ Hlast).
  assert (0 < String.length interior) by (destruct interior; [congruence|cbn; lia]).
  destruct (Z.eqb_spec (Z.of_nat (String.length a)) (-1)); [lia|]. cbn [negb].
  destruct (Z.gtb_spec (Z.of_nat (String.length a + 7 + String.length interior))
              (Z.of_nat (String.length a) + 7)); [|lia].
  do 2 f_equal. f_equal.
  rewrite Ht at 1.
  replace (a +:+ "```json" +:+ interior +:+ "```" +:+ b)
    with ((a +:+ "```json") +:+ interior +:+ ("```" +:+ b)) by (by rewrite append_assoc).
  replace (Z.of_nat (String.length a) + 7)%Z
    with (Z.of_nat (String.length (a +:+ "```json")))
    by (rewrite length_append; cbn; lia).
  replace (String.length a + 7 + String.length interior)
    with (String.length (a +:+ "```json") + String.length interior)
    by (rewrite length_append; cbn; lia).
  apply slice_interior.
Qed.

(** Two splits of one string line up: the shorter left part is a prefix of
    the longer one. *)
Lemma append_align s1 x s2 y :
  s1 +:+ x = s2 +:+ y -> String.length s1 <= String.length s2 ->
  exists m, s2 = s1 +:+ m /\ x = m +:+ y.
Proof.
  revert s2. induction s1 as [|c s1 IH]; intros s2 Heq Hlen.
  - exists s2. split; [reflexivity|exact Heq].
  - destruct s2 as [|c' s2]; [cbn in Hlen; lia|].
    cbn in Heq, Hlen. injection Heq as -> Heq.
    destruct (IH s2 Heq) as (m & -> & ->); [lia|]. by exists m.
Qed.

Lemma strategy_embedded_inv t result :
  strategy_embedded rt t = Some result ->
  exists a interior b, embedded_block t a interior b.
Proof.
  unfold strategy_embedded, Js.indexOf, Js.lastIndexOf. intros Hhit.
  destruct (String.index 0 "```json" t) as [i|] eqn:Hindex; [|discriminate].
  destruct (Z.eqb_spec (Z.of_nat i) (-1)); [lia|]. cbn [negb] in Hhit.
  destruct (Js.last_index "```" t) as [j|] eqn:Hlast;
    [|destruct (Z.gtb_spec (-1) (Z.of_nat i + 7)); [lia|discriminate]].
  destruct (Z.gtb_spec (Z.of_nat j) (Z.of_nat i + 7)) as [Hgt|]; [|discriminate].
  apply index_first in Hindex as Hfirst. apply last_index_last in Hlast as Hlst.
  destruct Hfirst as [(a & r & Ht & Ha) Hmin].
  destruct Hlst as [(a' & b & Ht' & Ha') Hmax].
  destruct (append_align (a +:+ "```json") r a' ("```" +:+ b)) as (m & Ha'm & Hr).
  { rewrite append_assoc. congruence. }
  { rewrite length_append. cbn. lia. }
  exists a, m, b.
  assert (Hlen : String.length a' = String.length a + 7 + String.length m).
  { rewrite Ha'm, !length_append. cbn. lia. }
  assert (Hdecomp : t = a +:+ "```json" +:+ m +:+ "```" +:+ b) by (by rewrite Ht, Hr).
  split; [exact Hdecomp|]. split; [|split].
  - rewrite Ha. split; [by exists a, r|exact Hmin].
  - rewrite <- Hlen, Ha'. split; [by exists a', b|exact Hmax].
  - intros ->. cbn in Hlen. lia.
Qed.

Lemma strategy_embedded_miss t :
  (forall a interior b, ~ embedded_block t a interior b) ->
  strategy_embedded rt t = None.
Proof.
  intros Hnone. destruct (strategy_embedded rt t) as [result|] eqn:Hhit; [|reflexivity].
  apply strategy_embedded_inv in Hhit as (a & interior & b & Hblock).
  by destruct (Hnone a interior b).
Qed.

(** The source follows the design's decision list: the strategy that
    [selects] picks is the only parse attempted, and its outcome, error
    included, is the result. *)
Lemma selects_sound output strategy text :
  selects (Js.trim output) strategy text ->
  parseClaudeCodeOutput rt output = parse_or_null rt text.
Proof.
  intros Hsel. unfold parseClaudeCodeOutput. cbn zeta.
  destruct Hsel as [body Ht|Hnf Hbrace|a interior b Hnf Hnb Hblock|Hnf Hnb Hnone].
  - rewrite Ht, strategy_fenced_hit. apply try_catch_parse.
  - rewrite (strategy_fenced_miss _ Hnf). unfold strategy_raw.
    apply starts_with_brace_iff in Hbrace. rewrite Hbrace. apply try_catch_parse.
  - rewrite (strategy_fenced_miss _ Hnf), (strategy_raw_miss _ Hnb),
      (strategy_embedded_hit _ _ _ _ Hblock).
    apply try_catch_parse.
  - rewrite (strategy_fenced_miss _ Hnf), (strategy_raw_miss _ Hnb),
      (strategy_embedded_miss _ Hnone).
    apply try_catch_parse.
Qed.

End Extractor.

(** Exactly one strategy is selected for every text. *)
Lemma selects_total t : exists strategy text, selects t strategy text.
Proof.
  destruct (Js.startsWith t "```json" && Js.endsWith t "```") eqn:Hfenced.
  { apply andb_true_iff in Hfenced as [Hs He].
    destruct (fenced_block_inv _ Hs He) as [body Hbody].
    exists Fenced, (Js.trim body). by constructor. }
  assert (Hnf : ~ is_fenced_block t).
  { intros [body ->]. rewrite startsWith_append in Hfenced.
    rewrite <- append_assoc, endsWith_append in Hfenced. discriminate. }
  destruct (Js.startsWith t "{") eqn:Hbrace.
  { exists RawObject, t. constructor; [exact Hnf|].
    unfold starts_with_brace. by apply prefix_inv. }
  assert (Hnb : ~ starts_with_brace t).
  { intros [rest ->]. rewrite startsWith_append in Hbrace. discriminate. }
  pose (rt := {| JSON_parse := fun _ => Return JNull; Date_getTime := fun _ => Return None;
                 Date_toISOString := fun _ => EmptyString; system_clock := fun _ => 0%Z |}).
  destruct (ClaudeCodeService.strategy_embedded rt t) as [result|] eqn:Hemb.
  - apply strategy_embedded_inv in Hemb as (a & interior & b & Hblock).
    exists Embedded, (Js.trim interior). by econstructor.
  - exists Fallback, t. constructor; [exact Hnf|exact Hnb|].
    intros a interior b Hblock.
    rewrite (strategy_embedded_hit rt _ _ _ _ Hblock) in Hemb. discriminate.
Qed.

Lemma append_inj_length a a' x x' :
  a +:+ x = a' +:+ x' -> String.length a = String.length a' -> a = a' /\ x = x'.
Proof.
  revert a'. induction a as [|c a IH]; intros [|c' a'] Heq Hlen; try discriminate.
  - by split.
  - cbn in Heq, Hlen. injection Heq as -> Heq.
    destruct (IH a' Heq) as [-> ->]; [lia|]. by split.
Qed.

Lemma selects_deterministic t s1 x1 s2 x2 :
  selects t s1 x1 -> selects t s2 x2 -> s1 = s2 /\ x1 = x2.
Proof.
  intros H1 H2.
  destruct H1 as [body Ht|Hnf Hbrace|a interior b Hnf Hnb Hblock|Hnf Hnb Hnone];
    destruct H2 as [body' Ht'|Hnf' Hbrace'|a' interior' b' Hnf' Hnb' Hblock'|Hnf' Hnb' Hnone'];
    try (split; reflexivity);
    try (exfalso; apply Hnf'; exists body; exact Ht);
    try (exfalso; apply Hnf; exists body'; exact Ht');
    try (exfalso; apply Hnb; exact Hbrace');
    try (exfalso; apply Hnb'; exact Hbrace);
    try (exfalso; exact (Hnone' _ _ _ Hblock));
    try (exfalso; exact (Hnone _ _ _ Hblock')).
  - split; [reflexivity|]. f_equal.
    rewrite Ht in Ht'. cbn in Ht'. injection Ht' as Ht'.
    apply append_inj_length in Ht' as [Hbody _]; [exact Hbody|].
    apply (f_equal String.length) in Ht'. rewrite !length_append in Ht'. cbn in Ht'. lia.
  - split; [reflexivity|]. f_equal.
    destruct Hblock as (Ht & Hfirst & Hlast & _).
    destruct Hblock' as (Ht' & Hfirst' & Hlast' & _).
    pose proof (first_occurrence_unique _ _ _ _ Hfirst Hfirst') as Ha.
    pose proof (last_occurrence_unique _ _ _ _ Hlast Hlast') as Hi.
    rewrite Ht in Ht'.
    apply append_inj_length in Ht' as [_ Ht']; [|exact Ha].
    cbn in Ht'. injection Ht' as Ht'.
    apply append_inj_length in Ht' as [Hint _]; [exact Hint|lia].
Qed.



(** The last fence marker closes the block: a payload that itself holds a
    fence marker is extracted whole. *)
Example payload_with_fence_marker :
  ClaudeCodeService.parseClaudeCodeOutput scenario_runtime
    (prose_then_fence (json_text "{'k':'```'}"))
  = Return (JObj [("k", JStr "```")]).
Proof. vm_compute. reflexivity. Qed.

(** C6. The extractor never throws; when the parse of the selected
    strategy fails its result is [null], the no-result value; and that is
    its result on the text [not json at all] and on the unterminated fence
    made of the tagged opening fence, a line feed and an opening brace. *)
Theorem extractor_reports_no_result :
  (forall rt output, exists v, ClaudeCodeService.parseClaudeCodeOutput rt output = Return v) /\
  (forall rt output,
     (forall strategy text,
        selects (Js.trim output) strategy text -> exists e, JSON_parse rt text = Throw e) ->
     ClaudeCodeService.parseClaudeCodeOutput rt output = Return JNull) /\
  ClaudeCodeService.parseClaudeCodeOutput scenario_runtime "not json at all" = Return JNull /\
  ClaudeCodeService.parseClaudeCodeOutput scenario_runtime ("```json" +:+ LF +:+ "{")
    = Return JNull.
Proof.
  split; [|split; [|split]].
  - intros rt output. destruct (selects_total (Js.trim output)) as (strategy & text & Hsel).
    rewrite (selects_sound rt _ _ _ Hsel). unfold parse_or_null.
    destruct (JSON_parse rt text); eexists; reflexivity.
  - intros rt output Hfail.
    destruct (selects_total (Js.trim output)) as (strategy & text & Hsel).
    rewrite (selects_sound rt _ _ _ Hsel). unfold parse_or_null.
    destruct (Hfail _ _ Hsel) as [e ->]. reflexivity.
  - vm_compute. reflexivity.
  - vm_compute. reflexivity.
Qed.

Lemma extractor_reports_no_result_witness :
  ClaudeCodeService.parseClaudeCodeOutput scenario_runtime "plain words" = Return JNull.
Proof.
  apply (proj1 (proj2 extractor_reports_no_result) scenario_runtime "plain words").
  intros strategy text Hsel.
  assert (Hfallback : selects (Js.trim "plain words") Fallback "plain words").
  { apply selects_fallback.
    - intros [body Hbody]. vm_compute in Hbody. discriminate.
    - intros [rest Hrest]. vm_compute in Hrest. discriminate.
    - intros a interior b (_ & [Hocc _] & _). revert Hocc.
      apply index_none. vm_compute. reflexivity. }
  destruct (selects_deterministic _ _ _ _ _ Hsel Hfallback) as [_ ->].
  eexists. vm_compute. reflexivity.
Defined.

(** ** The shape of [JSON.stringify]'s output *)

Section Shape.

Implicit Types (s a b : string) (c : ascii).

Lemma last_char_append a b : b <> EmptyString -> last_char (a +:+ b) = last_char b.
Proof.
  intros Hb. induction a as [|c a IH]; [reflexivity|].
  cbn [String.append last_char]. rewrite IH.
  destruct (a +:+ b) eqn:Hab; [|reflexivity].
  destruct a; [cbn in Hab; congruence|discriminate].
Qed.

Lemma last_char_all P s :
  s <> EmptyString -> str_all P s = true -> exists c, last_char s = Some c /\ P c = true.
Proof.
  induction s as [|c s IH]; intros Hne Hall; [congruence|].
  cbn in Hall. apply andb_true_iff in Hall as [Hc Hall].
  destruct s as [|c' s]; [by exists c|].
  destruct IH as (c0 & Hlast & Hc0); [discriminate|exact Hall|]. by exists c0.
Qed.

Lemma trimStart_id c s : Js.is_white_space c = false -> Js.trimStart (String c s) = String c s.
Proof. intros Hc. cbn. by rewrite Hc. Qed.

Lemma trimEnd_unfold c s :
  Js.trimEnd (String c s) =
  match Js.trimEnd s with
  | EmptyString => if Js.is_white_space c then EmptyString else String c EmptyString
  | String c' r => String c (String c' r)
  end.
Proof. reflexivity. Qed.

Lemma trimEnd_id s c :
  last_char s = Some c -> Js.is_white_space c = false -> Js.trimEnd s = s.
Proof.
  induction s as [|c0 s IH]; intros Hlast Hc; [discriminate|].
  destruct s as [|c1 s].
  - cbn in Hlast. injection Hlast as ->. cbn. by rewrite Hc.
  - rewrite trimEnd_unfold, IH by assumption. reflexivity.
Qed.

Lemma trimEnd_LF s : s <> EmptyString -> Js.trimEnd (s +:+ LF) = Js.trimEnd s.
Proof.
  induction s as [|c s IH]; intros Hne; [congruence|].
  destruct s as [|c' s]; [reflexivity|].
  change (String c (String c' s) +:+ LF) with (String c (String c' s +:+ LF)).
  rewrite !(trimEnd_unfold c). by rewrite IH.
Qed.

Lemma json_start_not_space c : json_start c = true -> Js.is_white_space c = false.
Proof. case_ascii c; cbn; congruence. Qed.

Lemma tight_trim s : tight s -> Js.trim s = s.
Proof.
  intros [(c & rest & -> & Hc) (c' & Hlast & Hc')]. unfold Js.trim.
  rewrite trimStart_id by (by apply json_start_not_space). by apply (trimEnd_id _ c').
Qed.

Lemma tight_trim_lines s : tight s -> Js.trim (LF +:+ s +:+ LF) = s.
Proof.
  intros Htight. pose proof (tight_trim _ Htight) as Htrim.
  destruct Htight as [(c & rest & -> & Hc) (c' & Hlast & Hc')]. unfold Js.trim in *.
  change (Js.trimStart (LF +:+ String c rest +:+ LF))
    with (Js.trimStart (String c (rest +:+ LF))).
  rewrite trimStart_id in * by (by apply json_start_not_space).
  change (String c (rest +:+ LF)) with (String c rest +:+ LF).
  rewrite trimEnd_LF by discriminate. exact Htrim.
Qed.

Lemma digits_all d : str_all is_digit (NilEmpty.string_of_uint d) = true.
Proof. induction d; cbn; try reflexivity; exact IHd. Qed.

Lemma string_of_N_digits n :
  JSON.string_of_N n <> EmptyString /\ str_all is_digit (JSON.string_of_N n) = true.
Proof.
  unfold JSON.string_of_N, NilZero.string_of_uint.
  destruct (N.to_uint n) as [|d|d|d|d|d|d|d|d|d|d] eqn:Hd;
    (split; [discriminate|]); try reflexivity; rewrite <- Hd; apply digits_all.
Qed.

Lemma digit_tight s : s <> EmptyString -> str_all is_digit s = true -> tight s.
Proof.
  intros Hne Hall. split.
  - destruct s as [|c rest]; [congruence|]. exists c, rest. split; [reflexivity|].
    cbn in Hall. apply andb_true_iff in Hall as [Hc _].
    revert Hc. clear. case_ascii c; cbn; congruence.
  - destruct (last_char_all _ _ Hne Hall) as (c & Hlast & Hc). exists c. split; [exact Hlast|].
    revert Hc. clear. case_ascii c; cbn; congruence.
Qed.

Lemma stringify_tight v : tight (JSON.stringify v).
Proof.
  destruct v as [|[]|[|p|p]|s|items|members]; cbn [JSON.stringify JSON.string_of_Z].
  - split; [by exists "n"%char, "ull"|by exists "l"%char].
  - split; [by exists "t"%char, "rue"|by exists "e"%char].
  - split; [by exists "f"%char, "alse"|by exists "e"%char].
  - split; [by exists "0"%char, EmptyString|by exists "0"%char].
  - apply digit_tight; apply string_of_N_digits.
  - destruct (string_of_N_digits (N.pos p)) as [Hne Hall]. split.
    + by exists "-"%char, (JSON.string_of_N (N.pos p)).
    + destruct (last_char_all _ _ Hne Hall) as (c & Hlast & Hc). exists c. split.
      * change (String "-" (JSON.string_of_N (N.pos p)))
          with ("-" +:+ JSON.string_of_N (N.pos p)).
        by rewrite last_char_append.
      * revert Hc. clear. case_ascii c; cbn; congruence.
  - unfold JSON.quote. split; [by eexists _, _|].
    exists "034"%char. split; [|reflexivity].
    change (String "034" (JSON.escape s +:+ String "034" ""))
      with (String "034" (JSON.escape s) +:+ String "034" "").
    by rewrite last_char_append.
  - split; [by eexists _, _|]. exists "]"%char. split; [|reflexivity].
    rewrite <- append_assoc. by rewrite last_char_append.
  - split; [by eexists _, _|]. exists "}"%char. split; [|reflexivity].
    rewrite <- append_assoc. by rewrite last_char_append.
Qed.

Lemma stringify_object_brace v : is_object v -> Js.startsWith (JSON.stringify v) "{" = true.
Proof.
  destruct v; cbn [is_object]; try contradiction. intros _.
  cbn [JSON.stringify]. apply startsWith_append.
Qed.

End Shape.

(** ** Round trips through the extractor *)

Section RoundTrip.

Import ClaudeCodeService.

Variable rt : Runtime.

Implicit Types (s p x : string).

Lemma last_index_short p s :
  String.length s < String.length p -> Js.last_index p s = None.
Proof.
  induction s as [|c s IH]; intros Hlen.
  - destruct p; [cbn in Hlen; lia|reflexivity].
  - rewrite last_index_unfold, IH by (cbn in Hlen; lia). by rewrite prefix_false_short.
Qed.

Lemma last_index_suffix p x :
  p <> EmptyString -> Js.last_index p (x +:+ p) = Some (String.length x).
Proof.
  intros Hp. induction x as [|c x IH].
  - destruct p as [|c p]; [congruence|].
    change (EmptyString +:+ String c p) with (String c p).
    rewrite last_index_unfold, last_index_short by (cbn; lia).
    rewrite <- (append_empty_r (String c p)) at 2. by rewrite prefix_append.
  - change (String c x +:+ p) with (String c (x +:+ p)).
    by rewrite last_index_unfold, IH.
Qed.

Lemma tight_not_fenced s : tight s -> ~ is_fenced_block s.
Proof.
  intros [(c & rest & -> & Hc) _] [body Hbody]. cbn in Hbody. injection Hbody as -> _.
  discriminate.
Qed.

Lemma trim_fence_json s : Js.trim (fence_json s) = fence_json s.
Proof.
  unfold Js.trim, fence_json.
  change ("```json" +:+ LF +:+ s +:+ LF +:+ "```")
    with (String "`" ("``json" +:+ LF +:+ s +:+ LF +:+ "```")) at 1.
  rewrite trimStart_id by reflexivity.
  apply (trimEnd_id _ "`"%char); [|reflexivity].
  change (String "`" ("``json" +:+ LF +:+ s +:+ LF +:+ "```"))
    with ("```json" +:+ LF +:+ s +:+ LF +:+ "```").
  rewrite <- !append_assoc. by rewrite last_char_append.
Qed.

Lemma trim_prose_then_fence s : Js.trim (prose_then_fence s) = prose_then_fence s.
Proof.
  unfold Js.trim, prose_then_fence, fence_json.
  change ("prose" +:+ LF +:+ "```json" +:+ LF +:+ s +:+ LF +:+ "```")
    with (String "p" ("rose" +:+ LF +:+ "```json" +:+ LF +:+ s +:+ LF +:+ "```")) at 1.
  rewrite trimStart_id by reflexivity.
  apply (trimEnd_id _ "`"%char); [|reflexivity].
  change (String "p" ("rose" +:+ LF +:+ "```json" +:+ LF +:+ s +:+ LF +:+ "```"))
    with ("prose" +:+ LF +:+ "```json" +:+ LF +:+ s +:+ LF +:+ "```").
  rewrite <- !append_assoc. by rewrite last_char_append.
Qed.

(** The fenced form: the first strategy strips the fences. *)
Lemma extract_fence s :
  tight s -> parseClaudeCodeOutput rt (fence_json s) = parse_or_null rt s.
Proof.
  intros Htight.
  rewrite <- (tight_trim_lines s Htight) at 2.
  apply (selects_sound rt _ Fenced). rewrite trim_fence_json.
  apply selects_fenced. unfold fence_json. by rewrite !append_assoc.
Qed.

(** The prose-prefixed form: the third strategy cuts between the first
    tagged fence and the last fence marker. *)
Lemma extract_prose s :
  tight s -> parseClaudeCodeOutput rt (prose_then_fence s) = parse_or_null rt s.
Proof.
  intros Htight.
  rewrite <- (tight_trim_lines s Htight) at 2.
  apply (selects_sound rt _ Embedded). rewrite trim_prose_then_fence.
  apply (selects_embedded _ ("prose" +:+ LF) (LF +:+ s +:+ LF) EmptyString).
  - intros [body Hbody]. discriminate.
  - intros [rest Hrest]. discriminate.
  - assert (Hshape : prose_then_fence s
                     = ("prose" +:+ LF) +:+ "```json" +:+ (LF +:+ s +:+ LF) +:+ "```" +:+ "").
    { unfold prose_then_fence, fence_json. by rewrite !append_assoc. }
    split; [exact Hshape|]. split; [|split].
    + apply index_first. reflexivity.
    + apply last_index_last.
      replace (prose_then_fence s)
        with ((("prose" +:+ LF) +:+ "```json" +:+ (LF +:+ s +:+ LF)) +:+ "```")
        by (unfold prose_then_fence, fence_json; by rewrite !append_assoc).
      rewrite last_index_suffix by discriminate.
      f_equal; rewrite !length_append; reflexivity.
    + discriminate.
Qed.

(** The bare form: the second strategy when the text opens with a brace,
    the fallback when it holds no tagged fence. *)
Lemma extract_bare s :
  tight s ->
  starts_with_brace s \/ (forall i, ~ occurs_at "```json" s i) ->
  parseClaudeCodeOutput rt s = parse_or_null rt s.
Proof.
  intros Htight Hcase.
  pose proof (tight_not_fenced _ Htight) as Hnf.
  destruct (Js.startsWith s "{") eqn:Hbrace.
  - apply (selects_sound rt _ RawObject). rewrite (tight_trim _ Htight).
    apply selects_raw; [exact Hnf|]. by apply starts_with_brace_iff.
  - assert (Hnb : ~ starts_with_brace s).
    { intros Hb. apply starts_with_brace_iff in Hb. congruence. }
    destruct Hcase as [Hb|Hnone]; [by destruct Hnb|].
    apply (selects_sound rt _ Fallback). rewrite (tight_trim _ Htight).
    apply selects_fallback; [exact Hnf|exact Hnb|].
    intros a interior b (_ & [Hocc _] & _). by apply (Hnone _ Hocc).
Qed.

End RoundTrip.

(** C4, as the claim states it, fails for the bare form: the string value
    whose text holds a tagged fence and a later fence marker is recovered
    by [JSON.parse] from its own text, but the extractor, which tries the
    embedded-block strategy before the fallback, returns the number 1. *)
Lemma bare_round_trip_counterexample :
  let v := JStr "```json1```" in
  JSON.parse (JSON.stringify v) = Return v /\
  ClaudeCodeService.parseClaudeCodeOutput scenario_runtime (JSON.stringify v) = Return (JNum 1) /\
  ClaudeCodeService.parseClaudeCodeOutput scenario_runtime (JSON.stringify v) <> Return v.
Proof.
  cbn zeta. split; [vm_compute; reflexivity|]. split; [vm_compute; reflexivity|].
  vm_compute. discriminate.
Qed.

Lemma extracts_back_when_parse_inverts rt v :
  JSON_parse rt (JSON.stringify v) = Return v -> extracts_back rt v.
Proof.
  intros Hparse.
  assert (Hnull : parse_or_null rt (JSON.stringify v) = Return v).
  { unfold parse_or_null. by rewrite Hparse. }
  pose proof (stringify_tight v) as Htight.
  split; [|split].
  - by rewrite extract_fence.
  - by rewrite extract_prose.
  - intros Hcase. rewrite extract_bare; [exact Hnull|exact Htight|].
    destruct Hcase as [Hobj|Hnone]; [left|by right].
    apply starts_with_brace_iff. by apply stringify_object_brace.
Qed.

(** * The reference [JSON.parse] inverts [JSON.stringify] *)

(** Induction on JSON values, with the hypothesis for every item of an
    array and every member of an object. *)
Lemma json_induction (P : json -> Prop) :
  P JNull -> (forall b, P (JBool b)) -> (forall n, P (JNum n)) -> (forall s, P (JStr s)) ->
  (forall items, Forall P items -> P (JArr items)) ->
  (forall members, Forall (fun kv => P kv.2) members -> P (JObj members)) ->
  forall v, P v.
Proof.
  intros Hnull Hbool Hnum Hstr Harr Hobj.
  fix IH 1. intros [|b|n|s|items|members].
  - exact Hnull.
  - apply Hbool.
  - apply Hnum.
  - apply Hstr.
  - apply Harr. induction items as [|v items IHitems]; constructor; [apply IH|exact IHitems].
  - apply Hobj. induction members as [|[k v] members IHmembers]; constructor;
      [apply IH|exact IHmembers].
Qed.

Lemma well_formed_items items :
  well_formed (JArr items) <-> Forall well_formed items.
Proof.
  cbn. induction items as [|v items IH]; split; intros H.
  - constructor.
  - exact I.
  - destruct H as [Hv Hitems]. constructor; [exact Hv|by apply IH].
  - apply Forall_cons in H as [Hv Hitems]. split; [exact Hv|by apply IH].
Qed.

Lemma well_formed_members members :
  well_formed (JObj members) <->
  NoDup (map fst members) /\ Forall (fun kv => well_formed kv.2) members.
Proof.
  cbn. apply and_iff_compat_l.
  induction members as [|kv members IH]; split; intros H.
  - constructor.
  - exact I.
  - destruct H as [Hv Hrest]. constructor; [exact Hv|by apply IH].
  - apply Forall_cons in H as [Hv Hrest]. split; [exact Hv|by apply IH].
Qed.

Section ParseStringify.

Implicit Types (s rest tail : string) (c : ascii) (v : json) (fuel : nat).

Lemma parse_chars_escape_char c tail :
  JSON.parse_chars (JSON.escape_char c +:+ tail) =
  match JSON.parse_chars tail with
  | Some (str, r) => Some (String c str, r)
  | None => None
  end.
Proof. case_ascii c; reflexivity. Qed.

(** A string literal is read back as the string it quotes. *)
Lemma parse_chars_escape s rest :
  JSON.parse_chars (JSON.escape s +:+ String "034" rest) = Some (s, rest).
Proof.
  induction s as [|c s IH].
  - reflexivity.
  - cbn [JSON.escape]. rewrite append_assoc, parse_chars_escape_char, IH. reflexivity.
Qed.

Lemma parse_digits_string d rest :
  delimited rest -> JSON.parse_digits (NilEmpty.string_of_uint d +:+ rest) = (d, rest).
Proof.
  intros Hrest.
  induction d; cbn [NilEmpty.string_of_uint String.append JSON.parse_digits JSON.digit_of];
    try (rewrite IHd; reflexivity).
  destruct rest as [|c rest]; [reflexivity|].
  destruct Hrest as [->|[->| ->]]; reflexivity.
Qed.

Lemma to_uint_normal n : Decimal.unorm (N.to_uint n) = N.to_uint n.
Proof.
  rewrite <- (DecimalN.Unsigned.of_to n) at 2.
  symmetry. apply DecimalN.Unsigned.to_of.
Qed.

Lemma to_uint_not_nil n : N.to_uint n <> Decimal.Nil.
Proof.
  destruct n as [|p]; [discriminate|]. apply DecimalPos.Unsigned.to_uint_nonnil.
Qed.

Lemma delimited_not_fraction rest :
  delimited rest -> JSON.starts_fraction_or_exponent rest = false.
Proof.
  destruct rest as [|c rest]; [reflexivity|]. intros [->|[->| ->]]; reflexivity.
Qed.

(** An integer literal is read back as the number it writes. *)
Lemma parse_nat_string n rest :
  delimited rest -> JSON.parse_nat (JSON.string_of_N n +:+ rest) = Some (n, rest).
Proof.
  intros Hrest. unfold JSON.parse_nat, JSON.string_of_N, NilZero.string_of_uint.
  pose proof (to_uint_not_nil n) as Hnil. pose proof (to_uint_normal n) as Hnorm.
  pose proof (DecimalN.Unsigned.of_to n) as Hvalue.
  destruct (N.to_uint n) as [|d|d|d|d|d|d|d|d|d|d] eqn:Hd; [congruence|..];
    rewrite parse_digits_string by assumption;
    rewrite Hnorm, (Decimal.internal_uint_dec_lb _ _ eq_refl), Hvalue,
      (delimited_not_fraction _ Hrest); reflexivity.
Qed.

Lemma parse_value_digit fuel c s :
  is_digit c = true ->
  JSON.parse_value (S fuel) (String c s) =
  match JSON.parse_nat (String c s) with
  | Some (n, r) => Some (JNum (Z.of_N n), r)
  | None => None
  end.
Proof.
  intros Hdigit.
  case_ascii c; try discriminate Hdigit; reflexivity.
Qed.

Lemma parse_value_number fuel n rest :
  delimited rest ->
  JSON.parse_value (S fuel) (JSON.string_of_Z n +:+ rest) = Some (JNum n, rest).
Proof.
  intros Hrest.
  assert (Hnat : forall m, JSON.parse_value (S fuel) (JSON.string_of_N m +:+ rest)
                           = Some (JNum (Z.of_N m), rest)).
  { intros m. destruct (string_of_N_digits m) as [Hne Hall].
    pose proof (parse_nat_string m rest Hrest) as Hparse.
    destruct (JSON.string_of_N m) as [|c s]; [congruence|].
    cbn in Hall. apply andb_true_iff in Hall as [Hc _].
    change (String c s +:+ rest) with (String c (s +:+ rest)) in *.
    by rewrite parse_value_digit, Hparse. }
  destruct n as [|p|p].
  - apply (Hnat 0%N).
  - apply (Hnat (N.pos p)).
  - change (JSON.string_of_Z (Z.neg p) +:+ rest)
      with (String "-" (JSON.string_of_N (N.pos p) +:+ rest)).
    change (JSON.parse_value (S fuel) (String "-" (JSON.string_of_N (N.pos p) +:+ rest)))
      with (match JSON.parse_nat (JSON.string_of_N (N.pos p) +:+ rest) with
            | Some (m, r) => Some (JNum (- Z.of_N m), r)
            | None => None
            end).
    by rewrite parse_nat_string.
Qed.

Lemma delimited_cons c rest :
  c = ","%char \/ c = "]"%char \/ c = "}"%char -> delimited (String c rest).
Proof. intros H. exact H. Qed.

Lemma expect_append lit rest : JSON.expect lit (lit +:+ rest) = Some rest.
Proof. unfold JSON.expect. by rewrite prefix_append, drop_append. Qed.

Lemma parse_value_null fuel rest :
  JSON.parse_value (S fuel) ("null" +:+ rest) = Some (JNull, rest).
Proof.
  change (JSON.parse_value (S fuel) ("null" +:+ rest))
    with (match JSON.expect "ull" ("ull" +:+ rest) with
          | Some r => Some (JNull, r)
          | None => None
          end).
  by rewrite expect_append.
Qed.

Lemma parse_value_true fuel rest :
  JSON.parse_value (S fuel) ("true" +:+ rest) = Some (JBool true, rest).
Proof.
  change (JSON.parse_value (S fuel) ("true" +:+ rest))
    with (match JSON.expect "rue" ("rue" +:+ rest) with
          | Some r => Some (JBool true, r)
          | None => None
          end).
  by rewrite expect_append.
Qed.

Lemma parse_value_false fuel rest :
  JSON.parse_value (S fuel) ("false" +:+ rest) = Some (JBool false, rest).
Proof.
  change (JSON.parse_value (S fuel) ("false" +:+ rest))
    with (match JSON.expect "alse" ("alse" +:+ rest) with
          | Some r => Some (JBool false, r)
          | None => None
          end).
  by rewrite expect_append.
Qed.

Lemma parse_value_string fuel s rest :
  JSON.parse_value (S fuel) (JSON.quote s +:+ rest) = Some (JStr s, rest).
Proof.
  unfold JSON.quote.
  change (JSON.parse_value (S fuel) (String "034" (JSON.escape s +:+ String "034" "") +:+ rest))
    with (match JSON.parse_chars ((JSON.escape s +:+ String "034" "") +:+ rest) with
          | Some (str, r) => Some (JStr str, r)
          | None => None
          end).
  rewrite append_assoc.
  change (String "034" "" +:+ rest) with (String "034" rest).
  by rewrite parse_chars_escape.
Qed.

Lemma parse_value_array fuel c s :
  json_start c = true ->
  JSON.parse_value (S fuel) (String "[" (String c s)) =
  match JSON.parse_elements fuel (String c s) with
  | Some (items, r) => Some (JArr items, r)
  | None => None
  end.
Proof.
  intros Hc. case_ascii c; try discriminate Hc; reflexivity.
Qed.

Lemma parse_elements_unfold fuel s :
  JSON.parse_elements (S fuel) s =
  match JSON.parse_value fuel s with
  | Some (v, r) =>
      match JSON.skip_ws r with
      | String "," r' =>
          match JSON.parse_elements fuel r' with
          | Some (vs, r'') => Some (v :: vs, r'')
          | None => None
          end
      | String "]" r' => Some ([v], r')
      | _ => None
      end
  | None => None
  end%char.
Proof. reflexivity. Qed.

Lemma parse_members_unfold fuel acc s :
  JSON.parse_members (S fuel) acc (String "034" s) =
  match JSON.parse_chars s with
  | Some (k, r) =>
      match JSON.skip_ws r with
      | String ":" r1 =>
          match JSON.parse_value fuel r1 with
          | Some (v, r2) =>
              let acc' := JSON.set_property acc k v in
              match JSON.skip_ws r2 with
              | String "," r3 => JSON.parse_members fuel acc' r3
              | String "}" r3 => Some (acc', r3)
              | _ => None
              end
          | None => None
          end
      | _ => None
      end
  | None => None
  end%char.
Proof. reflexivity. Qed.

Lemma set_property_fresh acc k v :
  k ∉ map fst acc -> JSON.set_property acc k v = acc ++ [(k, v)].
Proof.
  induction acc as [|[k' v'] acc IH]; intros Hfresh; [reflexivity|].
  cbn in *. apply not_elem_of_cons in Hfresh as [Hne Hfresh].
  destruct (String.eqb_spec k' k); [congruence|]. by rewrite IH.
Qed.

Lemma stringify_head v :
  exists c tail, JSON.stringify v = String c tail /\ json_start c = true.
Proof. apply stringify_tight. Qed.

Lemma join_comma_cons p parts :
  parts <> [] -> JSON.join_comma (p :: parts) = p +:+ "," +:+ JSON.join_comma parts.
Proof. destruct parts; [congruence|reflexivity]. Qed.

Lemma elements_read_back items :
  items <> [] -> Forall reads_back items ->
  forall fuel rest,
    foldr (fun x n => S (parse_depth x) + n) 0 items <= fuel ->
    JSON.parse_elements fuel (JSON.join_comma (map JSON.stringify items) +:+ "]" +:+ rest)
    = Some (items, rest).
Proof.
  induction items as [|v items IH]; [congruence|]. intros _ Hall fuel rest Hfuel.
  apply Forall_cons in Hall as [Hv Hall]. cbn [foldr] in Hfuel.
  destruct fuel as [|fuel]; [lia|]. rewrite parse_elements_unfold.
  destruct items as [|w more].
  - cbn [map JSON.join_comma].
    rewrite (Hv fuel ("]" +:+ rest)); [reflexivity|cbn in Hfuel; lia|].
    apply delimited_cons. tauto.
  - cbn [map]. rewrite join_comma_cons by discriminate.
    rewrite !append_assoc.
    rewrite (Hv fuel); [|lia|apply delimited_cons; tauto].
    change (JSON.skip_ws ("," +:+ JSON.join_comma (JSON.stringify w :: map JSON.stringify more)
                          +:+ "]" +:+ rest))
      with (String "," (JSON.join_comma (map JSON.stringify (w :: more)) +:+ "]" +:+ rest)).
    cbv iota. rewrite IH; [reflexivity|discriminate|exact Hall|lia].
Qed.

Lemma members_read_back members :
  members <> [] -> Forall (fun kv => reads_back kv.2) members ->
  forall fuel acc rest,
    NoDup (map fst (acc ++ members)) ->
    foldr (fun kv n => S (parse_depth kv.2) + n) 0 members <= fuel ->
    JSON.parse_members fuel acc (JSON.join_comma (map member_text members) +:+ "}" +:+ rest)
    = Some (acc ++ members, rest).
Proof.
  induction members as [|[k v] members IH]; [congruence|].
  intros _ Hall fuel acc rest Hnodup Hfuel.
  apply Forall_cons in Hall as [Hv Hall]. cbn [foldr snd] in Hfuel, Hv.
  destruct fuel as [|fuel]; [lia|].
  assert (Hfresh : k ∉ map fst acc).
  { rewrite map_app in Hnodup. apply NoDup_app in Hnodup as (_ & Hdisj & _).
    intros Hk. apply (Hdisj k Hk). cbn. left. }
  assert (Hstep : forall tail, delimited tail ->
             JSON.parse_members (S fuel) acc (member_text (k, v) +:+ tail) =
             match JSON.skip_ws tail with
             | String "," r3 => JSON.parse_members fuel (acc ++ [(k, v)]) r3
             | String "}" r3 => Some (acc ++ [(k, v)], r3)
             | _ => None
             end%char).
  { intros tail Htail. unfold member_text, JSON.quote. cbn [fst snd].
    change (String "034" (JSON.escape k +:+ String "034" "") +:+ ":" +:+ JSON.stringify v)
      with (String "034" ((JSON.escape k +:+ String "034" "") +:+ ":" +:+ JSON.stringify v)).
    change (String "034" ((JSON.escape k +:+ String "034" "") +:+ ":" +:+ JSON.stringify v)
            +:+ tail)
      with (String "034" (((JSON.escape k +:+ String "034" "") +:+ ":" +:+ JSON.stringify v)
                          +:+ tail)).
    rewrite parse_members_unfold, !append_assoc.
    change (String "034" "" +:+ ":" +:+ JSON.stringify v +:+ tail)
      with (String "034" (":" +:+ JSON.stringify v +:+ tail)).
    rewrite parse_chars_escape.
    change (JSON.skip_ws (":" +:+ JSON.stringify v +:+ tail))
      with (String ":" (JSON.stringify v +:+ tail)).
    cbv iota. rewrite (Hv fuel tail); [|lia|exact Htail].
    cbv zeta. by rewrite set_property_fresh. }
  destruct members as [|kv more].
  - cbn [map JSON.join_comma].
    rewrite Hstep by (apply delimited_cons; tauto). reflexivity.
  - cbn [map]. rewrite join_comma_cons by discriminate.
    rewrite append_assoc. rewrite Hstep by (apply delimited_cons; tauto).
    rewrite !append_assoc.
    change (JSON.skip_ws ("," +:+ JSON.join_comma (member_text kv :: map member_text more)
                          +:+ "}" +:+ rest))
      with (String "," (JSON.join_comma (map member_text (kv :: more)) +:+ "}" +:+ rest)).
    cbv iota. rewrite IH; [|discriminate|exact Hall| |lia].
    + by rewrite <- app_assoc.
    + by rewrite <- app_assoc.
Qed.

Lemma parse_value_object fuel s :
  JSON.parse_value (S fuel) (String "{" (String "034" s)) =
  match JSON.parse_members fuel [] (String "034" s) with
  | Some (members, r) => Some (JObj members, r)
  | None => None
  end.
Proof. reflexivity. Qed.

Lemma join_comma_head v items :
  exists c tail,
    JSON.join_comma (map JSON.stringify (v :: items)) = String c tail /\ json_start c = true.
Proof.
  destruct (stringify_head v) as (c & tail & Hv & Hc).
  destruct items as [|w more]; cbn [map].
  - exists c, tail. by split.
  - rewrite join_comma_cons by discriminate. rewrite Hv.
    by exists c, (tail +:+ "," +:+ JSON.join_comma (map JSON.stringify (w :: more))).
Qed.

Lemma join_comma_members_head kv members :
  exists tail, JSON.join_comma (map member_text (kv :: members)) = String "034" tail.
Proof.
  destruct members as [|kv' more]; cbn [map].
  - by eexists.
  - rewrite join_comma_cons by discriminate. by eexists.
Qed.

Lemma stringify_members members :
  JSON.stringify (JObj members) = "{" +:+ JSON.join_comma (map member_text members) +:+ "}".
Proof. reflexivity. Qed.

(** [parse_value] reads back the text of every well-formed value. *)
Lemma parse_value_stringify v : well_formed v -> reads_back v.
Proof.
  induction v as [|b|n|s|items IH|members IH] using json_induction;
    intros Hwf fuel rest Hfuel Hrest;
    (destruct fuel as [|fuel]; [cbn in Hfuel; lia|]).
  - apply parse_value_null.
  - destruct b; [apply parse_value_true|apply parse_value_false].
  - by apply parse_value_number.
  - apply parse_value_string.
  - apply well_formed_items in Hwf.
    assert (Hall : Forall reads_back items).
    { apply Forall_forall. intros x Hx. rewrite Forall_forall in IH, Hwf. auto. }
    destruct items as [|v items]; [reflexivity|].
    cbn [JSON.stringify]. rewrite !append_assoc.
    change ("[" +:+ JSON.join_comma (map JSON.stringify (v :: items)) +:+ "]" +:+ rest)
      with (String "[" (JSON.join_comma (map JSON.stringify (v :: items)) +:+ "]" +:+ rest)).
    destruct (join_comma_head v items) as (c & tail & Hhead & Hc).
    pose proof (elements_read_back (v :: items) ltac:(discriminate) Hall fuel rest) as Helems.
    rewrite Hhead in *.
    change (String c tail +:+ "]" +:+ rest) with (String c (tail +:+ "]" +:+ rest)) in *.
    rewrite parse_value_array by exact Hc.
    rewrite Helems; [reflexivity|]. cbn [parse_depth] in Hfuel. lia.
  - apply well_formed_members in Hwf as [Hnodup Hwf].
    assert (Hall : Forall (fun kv => reads_back kv.2) members).
    { apply Forall_forall. intros x Hx. rewrite Forall_forall in IH, Hwf. auto. }
    destruct members as [|kv members]; [reflexivity|].
    rewrite stringify_members, !append_assoc.
    change ("{" +:+ JSON.join_comma (map member_text (kv :: members)) +:+ "}" +:+ rest)
      with (String "{" (JSON.join_comma (map member_text (kv :: members)) +:+ "}" +:+ rest)).
    destruct (join_comma_members_head kv members) as (tail & Hhead).
    pose proof (members_read_back (kv :: members) ltac:(discriminate) Hall fuel [] rest Hnodup)
      as Hmembers.
    rewrite Hhead in *.
    change (String "034" tail +:+ "}" +:+ rest)
      with (String "034" (tail +:+ "}" +:+ rest)) in *.
    rewrite parse_value_object.
    rewrite Hmembers; [reflexivity|]. cbn [parse_depth] in Hfuel. lia.
Qed.

Lemma elements_depth_le_length items :
  Forall (fun v => parse_depth v <= String.length (JSON.stringify v)) items ->
  foldr (fun x n => S (parse_depth x) + n) 0 items
  <= S (String.length (JSON.join_comma (map JSON.stringify items))).
Proof.
  induction items as [|v items IH]; intros Hall; [cbn; lia|].
  apply Forall_cons in Hall as [Hv Hall]. specialize (IH Hall).
  destruct items as [|w more].
  - cbn in *. lia.
  - cbn [map foldr] in *. rewrite join_comma_cons by discriminate.
    rewrite !length_append. cbn [String.length]. lia.
Qed.

Lemma members_depth_le_length members :
  Forall (fun kv => parse_depth kv.2 <= String.length (JSON.stringify kv.2)) members ->
  foldr (fun kv n => S (parse_depth kv.2) + n) 0 members
  <= S (String.length (JSON.join_comma (map member_text members))).
Proof.
  induction members as [|kv members IH]; intros Hall; [cbn; lia|].
  apply Forall_cons in Hall as [Hv Hall]. specialize (IH Hall).
  assert (Hlen : parse_depth kv.2 <= String.length (member_text kv)).
  { unfold member_text. rewrite !length_append. lia. }
  destruct members as [|kv' more].
  - cbn [map foldr JSON.join_comma] in *. lia.
  - cbn [map foldr] in *. rewrite join_comma_cons by discriminate.
    rewrite !length_append. cbn [String.length]. lia.
Qed.

Lemma depth_le_length v : parse_depth v <= String.length (JSON.stringify v).
Proof.
  induction v as [|b|n|s|items IH|members IH] using json_induction.
  - cbn. lia.
  - destruct b; cbn; lia.
  - destruct (stringify_head (JNum n)) as (c & tail & -> & _). cbn. lia.
  - cbn. lia.
  - cbn [parse_depth JSON.stringify]. rewrite !length_append. cbn [String.length].
    pose proof (elements_depth_le_length items IH). lia.
  - cbn [parse_depth]. rewrite stringify_members, !length_append. cbn [String.length].
    pose proof (members_depth_le_length members IH). lia.
Qed.

(** The reference [JSON.parse] recovers every well-formed value from the
    text [JSON.stringify] writes for it. *)
Lemma parse_stringify v : well_formed v -> JSON.parse (JSON.stringify v) = Return v.
Proof.
  intros Hwf. unfold JSON.parse.
  pose proof (parse_value_stringify v Hwf (S (String.length (JSON.stringify v))) EmptyString)
    as Hparse.
  rewrite append_empty_r in Hparse. rewrite Hparse; [reflexivity| |exact I].
  pose proof (depth_le_length v). lia.
Qed.

End ParseStringify.

(** C4, amended. For every runtime and every JSON value [v] that its
    [JSON.parse] recovers from [JSON.stringify v], and, with the reference
    parser, for every well-formed value [v], the extractor yields [v] from
    the fenced form and from the prose-prefixed form, and from the bare
    form whenever [v] is an object or its text holds no tagged fence. *)
Theorem result_extractor_round_trip :
  (forall rt v, JSON_parse rt (JSON.stringify v) = Return v -> extracts_back rt v) /\
  (forall clock v, well_formed v -> extracts_back (Reference.runtime clock) v).
Proof.
  split.
  - exact extracts_back_when_parse_inverts.
  - intros clock v Hwf. apply extracts_back_when_parse_inverts.
    by apply parse_stringify.
Qed.

Lemma result_extractor_round_trip_witness :
  extracts_back scenario_runtime
    (JObj [("name", JStr "w"); ("nodes", JArr [JNum 1; JNull; JBool true])]).
Proof.
  apply (proj2 result_extractor_round_trip (fun _ => 1717245296789%Z)
           (JObj [("name", JStr "w"); ("nodes", JArr [JNum 1; JNull; JBool true])])).
  apply well_formed_members. split.
  - cbn. apply NoDup_cons. split; [|apply NoDup_singleton].
    intros Hin. apply list_elem_of_singleton in Hin. discriminate.
  - repeat constructor.
Defined.

(** * Further properties of the process service *)

Section ProcessServiceMore.

Import ClaudeCodeService.

Implicit Types (w : World) (requestId : string).

Lemma signals_app (es es' : list Effect) : signals (es ++ es') = signals es ++ signals es'.
Proof.
  induction es as [|[level line|pid] es IH]; cbn; [reflexivity|exact IH|by rewrite IH].
Qed.

Lemma cancel_of_unknown_request_is_noop_aux requestId w :
  activeProcesses w !! requestId = None ->
  (cancelGeneration requestId w).1 = not_cancelled /\
  only_warned w (cancelGeneration requestId w).2 /\
  (cancelRefinement requestId w).1 = not_cancelled /\
  only_warned w (cancelRefinement requestId w).2.
Proof.
  intros Hnone.
  unfold cancelGeneration, cancelRefinement, mbind, M_bind, activeProcesses_get.
  rewrite Hnone. cbn.
  repeat split; eexists; reflexivity.
Qed.

(** X2. The two cancel functions work on the one shared registry in the
    same way: for every identifier and state they return the same result
    and leave the same registry, kill flags, signals, clock readings and
    timer delays (only the logged texts differ); and neither changes the
    record of any other identifier. *)
Theorem cancel_functions_share_registry requestId w :
  let g := cancelGeneration requestId w in
  let r := cancelRefinement requestId w in
  r.1 = g.1 /\
  activeProcesses r.2 = activeProcesses g.2 /\
  killedFlags r.2 = killedFlags g.2 /\
  signals (effects r.2) = signals (effects g.2) /\
  clockReads r.2 = clockReads g.2 /\
  map fst (timers r.2) = map fst (timers g.2) /\
  forall other, other <> requestId ->
    activeProcesses g.2 !! other = activeProcesses w !! other.
Proof.
  cbn zeta.
  split; [|split; [|split; [|split; [|split; [|split]]]]];
    try (unfold cancelGeneration, cancelRefinement, mbind, M_bind, activeProcesses_get;
         destruct (activeProcesses w !! requestId) as [gen|]; cbn;
         rewrite ?signals_app, ?map_app; reflexivity).
  intros other Hother. rewrite cancelGeneration_registry. by apply lookup_delete_ne.
Qed.

Lemma executeClaudeCodeCLI_effects prompt timeoutMs rid cwd model tools w :
  exists lines, Forall is_logged lines /\
    effects (executeClaudeCodeCLI prompt timeoutMs rid cwd model tools w).2
    = effects w ++ lines.
Proof.
  eexists [_; _]. split; [|symmetry; apply (app_assoc (effects w) [_] [_])].
  by repeat constructor.
Qed.

Lemma executeClaudeCodeCLIStreaming_effects prompt cb timeoutMs rid cwd model tools w :
  exists lines, Forall is_logged lines /\
    effects (executeClaudeCodeCLIStreaming prompt cb timeoutMs rid cwd model tools w).2
    = effects w ++ lines.
Proof.
  eexists [_; _]. split; [|symmetry; apply (app_assoc (effects w) [_] [_])].
  by repeat constructor.
Qed.

Lemma executeClaudeCodeCLIStreaming_timers prompt cb timeoutMs rid cwd model tools w :
  exists first second,
    timers (executeClaudeCodeCLIStreaming prompt cb timeoutMs rid cwd model tools w).2
    = timers w ++ [(100%Z, first); (500%Z, second)] /\
    is_progress_timer (100%Z, first) /\ is_progress_timer (500%Z, second).
Proof.
  eexists _, _. split; [symmetry; apply (app_assoc (timers w) [_] [_])|].
  split; exact I.
Qed.

(** X3. The module never signals a process: in every state reachable from
    the initial one no kill flag is set, the effects are log lines only,
    every pending timer is a progress call, and every cancellation,
    whatever the identifier, returns [cancelled = false]. *)
Theorem module_never_signals clock w :
  reachable clock w ->
  killedFlags w = ∅ /\ Forall is_logged (effects w) /\
  Forall is_progress_timer (timers w) /\
  forall requestId,
    (cancelGeneration requestId w).1 = not_cancelled /\
    (cancelRefinement requestId w).1 = not_cancelled.
Proof.
  intros Hreach.
  assert (Hinv : killedFlags w = ∅ /\ Forall is_logged (effects w) /\
                 Forall is_progress_timer (timers w)).
  { induction Hreach as [|w w' Hreach (Hk & He & Ht) Hstep].
    - repeat split; constructor.
    - pose proof (reachable_registry_empty _ _ Hreach) as Hempty.
      destruct Hstep as [prompt timeoutMs rid cwd model tools w
                        |prompt cb timeoutMs rid cwd model tools w
                        |rid w|rid w|delay callback before after w Htimers].
      + split; [exact Hk|]. split; [|exact Ht].
        destruct (executeClaudeCodeCLI_effects prompt timeoutMs rid cwd model tools w)
          as (lines & Hlines & ->).
        apply Forall_app. by split.
      + split; [exact Hk|]. split.
        * destruct (executeClaudeCodeCLIStreaming_effects prompt cb timeoutMs rid cwd model tools w)
            as (lines & Hlines & ->).
          apply Forall_app. by split.
        * destruct (executeClaudeCodeCLIStreaming_timers prompt cb timeoutMs rid cwd model tools w)
            as (first & second & -> & Hfirst & Hsecond).
          apply Forall_app. split; [exact Ht|]. by repeat constructor.
      + destruct (cancel_of_unknown_request_is_noop_aux rid w) as (_ & H & _).
        { rewrite Hempty. apply lookup_empty. }
        destruct H as (_ & -> & -> & _ & line & ->).
        split; [exact Hk|]. split; [|exact Ht].
        apply Forall_app. split; [exact He|]. by repeat constructor.
      + destruct (cancel_of_unknown_request_is_noop_aux rid w) as (_ & _ & _ & H).
        { rewrite Hempty. apply lookup_empty. }
        destruct H as (_ & -> & -> & _ & line & ->).
        split; [exact Hk|]. split; [|exact Ht].
        apply Forall_app. split; [exact He|]. by repeat constructor.
      + rewrite Htimers in Ht. apply Forall_app in Ht as [Hbefore Hafter].
        apply Forall_cons in Hafter as [Hcallback Hafter].
        destruct callback as [pid warning|cb chunk d e ct]; [contradiction|].
        cbn. split; [exact Hk|]. split; [exact He|]. apply Forall_app. by split. }
  destruct Hinv as (Hk & He & Ht). split; [exact Hk|]. split; [exact He|]. split; [exact Ht|].
  intros requestId.
  destruct (cancel_of_unknown_request_is_noop_aux requestId w) as (H1 & _ & H2 & _).
  { rewrite (reachable_registry_empty _ _ Hreach). apply lookup_empty. }
  by split.
Qed.

Lemma module_never_signals_witness :
  let w := (executeClaudeCodeCLIStreaming "prompt" 7 None (Some "r") None None None
              (initial (fun _ => 0%Z))).2 in
  killedFlags w = ∅ /\ Forall is_logged (effects w) /\
  Forall is_progress_timer (timers w) /\
  forall requestId,
    (cancelGeneration requestId w).1 = not_cancelled /\
    (cancelRefinement requestId w).1 = not_cancelled.
Proof.
  apply (module_never_signals (fun _ => 0%Z)).
  eapply reachable_step; [apply reachable_initial|].
  apply (step_streaming "prompt" 7 None (Some "r") None None None).
Defined.

(** X4. The streaming execution schedules exactly two progress calls of
    the caller's function, 100 ms and 500 ms after the call and behind the
    timers already pending; the second one carries the returned output as
    display text and as explanatory text; and the reported time is at most
    600 ms. *)
Theorem streaming_progress_matches_output
  prompt onProgress timeoutMs rid cwd model tools w :
  let r := executeClaudeCodeCLIStreaming prompt onProgress timeoutMs rid cwd model tools w in
  exists out first_chunk first_text,
    output r.1 = Some out /\
    timers r.2 = timers w ++
      [(100%Z, InvokeProgress onProgress first_chunk first_text first_text (Some text));
       (500%Z, InvokeProgress onProgress "完成" out out (Some text))] /\
    first_text <> out /\
    (executionTimeMs r.1 <= 600)%Z.
Proof.
  cbn zeta. eexists _, _, _. split; [reflexivity|]. split; [|split].
  - symmetry. apply (app_assoc (timers w) [_] [_]).
  - vm_compute. discriminate.
  - apply Z.le_min_r.
Qed.

(** X5. The output of either execution is accepted by the result
    extractor: with the reference parser it yields the placeholder object,
    never the no-result value. *)
Theorem execution_output_is_extractable
  prompt timeoutMs rid cwd model tools w
  prompt' onProgress timeoutMs' rid' cwd' model' tools' w' :
  let once := (executeClaudeCodeCLI prompt timeoutMs rid cwd model tools w).1 in
  let streamed :=
    (executeClaudeCodeCLIStreaming prompt' onProgress timeoutMs' rid' cwd' model' tools' w').1 in
  (exists out, output once = Some out /\
     parseClaudeCodeOutput scenario_runtime out = Return offline_placeholder_value) /\
  (exists out, output streamed = Some out /\
     parseClaudeCodeOutput scenario_runtime out = Return offline_placeholder_value).
Proof.
  cbn zeta. split; (eexists; split; [reflexivity|vm_compute; reflexivity]).
Qed.

(** X6. The spawn command is always the direct [claude] command with the
    arguments unchanged; the [npx] fallback is never chosen, and computing
    the command changes nothing but the log. *)
Theorem spawn_command_is_always_direct (arguments : list string) w :
  let r := getClaudeSpawnCommand arguments w in
  r.1 = {| command := "claude"; args := arguments |} /\
  command r.1 <> "npx" /\
  activeProcesses r.2 = activeProcesses w /\ killedFlags r.2 = killedFlags w /\
  timers r.2 = timers w /\ signals (effects r.2) = signals (effects w).
Proof.
  cbn zeta. split; [reflexivity|]. split; [discriminate|].
  split; [reflexivity|]. split; [reflexivity|]. split; [reflexivity|].
  change (effects (getClaudeSpawnCommand arguments w).2)
    with ((effects w ++ [Logged "console" "[yougao] 跳过 Claude CLI 校验"])
          ++ [Logged "INFO" "[yougao] 跳过 Claude CLI 校验，强制返回 true"]).
  rewrite !signals_app. cbn. by rewrite !app_nil_r.
Qed.

End ProcessServiceMore.

(** * Further properties of the result extractor *)

Section ExtractorMore.

Import ClaudeCodeService.

Lemma trimStart_spaces ws s :
  str_all Js.is_white_space ws = true -> Js.trimStart (ws +:+ s) = Js.trimStart s.
Proof.
  induction ws as [|c ws IH]; intros Hws; [reflexivity|].
  cbn in Hws. apply andb_true_iff in Hws as [Hc Hws].
  change (String c ws +:+ s) with (String c (ws +:+ s)). cbn. rewrite Hc. by apply IH.
Qed.

Lemma trimEnd_all_spaces ws :
  str_all Js.is_white_space ws = true -> Js.trimEnd ws = EmptyString.
Proof.
  induction ws as [|c ws IH]; intros Hws; [reflexivity|].
  cbn in Hws. apply andb_true_iff in Hws as [Hc Hws].
  rewrite trimEnd_unfold, IH, Hc by assumption. reflexivity.
Qed.

Lemma trimEnd_spaces s ws :
  str_all Js.is_white_space ws = true -> Js.trimEnd (s +:+ ws) = Js.trimEnd s.
Proof.
  intros Hws. induction s as [|c s IH]; [by apply trimEnd_all_spaces|].
  change (String c s +:+ ws) with (String c (s +:+ ws)).
  by rewrite !trimEnd_unfold, IH.
Qed.

Lemma trim_spaces_after s ws :
  str_all Js.is_white_space ws = true -> Js.trim (s +:+ ws) = Js.trim s.
Proof.
  intros Hws. unfold Js.trim. induction s as [|c s IH].
  - change (EmptyString +:+ ws) with ws. rewrite <- (append_empty_r ws) at 1.
    rewrite trimStart_spaces by assumption. reflexivity.
  - change (String c s +:+ ws) with (String c (s +:+ ws)). cbn [Js.trimStart].
    destruct (Js.is_white_space c); [exact IH|].
    change (String c (s +:+ ws)) with (String c s +:+ ws). by apply trimEnd_spaces.
Qed.

Lemma trim_spaces ws s ws' :
  str_all Js.is_white_space ws = true -> str_all Js.is_white_space ws' = true ->
  Js.trim (ws +:+ s +:+ ws') = Js.trim s.
Proof.
  intros Hws Hws'. rewrite <- (trim_spaces_after s ws' Hws').
  unfold Js.trim. by rewrite trimStart_spaces.
Qed.

Lemma trimEnd_idempotent s : Js.trimEnd (Js.trimEnd s) = Js.trimEnd s.
Proof.
  induction s as [|c s IH]; [reflexivity|].
  rewrite trimEnd_unfold. destruct (Js.trimEnd s) as [|c' r] eqn:Hs.
  - destruct (Js.is_white_space c) eqn:Hc; [reflexivity|]. cbn. by rewrite Hc.
  - by rewrite trimEnd_unfold, IH.
Qed.

Lemma trimEnd_head c s :
  Js.is_white_space c = false -> exists r, Js.trimEnd (String c s) = String c r.
Proof.
  intros Hc. rewrite trimEnd_unfold. destruct (Js.trimEnd s); rewrite ?Hc; by eexists.
Qed.

Lemma trimStart_head s :
  Js.trimStart s = EmptyString \/
  exists c r, Js.trimStart s = String c r /\ Js.is_white_space c = false.
Proof.
  induction s as [|c s IH]; [by left|]. cbn.
  destruct (Js.is_white_space c) eqn:Hc; [exact IH|]. right. by exists c, s.
Qed.

Lemma trim_idempotent s : Js.trim (Js.trim s) = Js.trim s.
Proof.
  unfold Js.trim. destruct (trimStart_head s) as [->|(c & r & -> & Hc)]; [reflexivity|].
  destruct (trimEnd_head c r Hc) as (r' & Hr). rewrite Hr, trimStart_id by exact Hc.
  rewrite <- Hr. apply trimEnd_idempotent.
Qed.

(** X7. White space around the output does not matter to the extractor:
    for every parser, an output wrapped in any run of (single-byte) white
    space before and after it gives the same result as the output itself,
    and so does the output already trimmed. *)
Theorem extractor_ignores_surrounding_space rt before output after :
  str_all Js.is_white_space before = true ->
  str_all Js.is_white_space after = true ->
  parseClaudeCodeOutput rt (before +:+ output +:+ after) = parseClaudeCodeOutput rt output /\
  parseClaudeCodeOutput rt (Js.trim output) = parseClaudeCodeOutput rt output.
Proof.
  intros Hbefore Hafter. unfold parseClaudeCodeOutput.
  by rewrite trim_spaces, trim_idempotent.
Qed.

Lemma extractor_ignores_surrounding_space_witness :
  let padded := (String "010" "  " +:+ "{}" +:+ String " " (String "009" LF)) in
  parseClaudeCodeOutput scenario_runtime padded
    = parseClaudeCodeOutput scenario_runtime "{}" /\
  parseClaudeCodeOutput scenario_runtime "{}" = Return (JObj []).
Proof.
  split; [|vm_compute; reflexivity].
  apply (extractor_ignores_surrounding_space scenario_runtime
           (String "010" "  ") "{}" (String " " (String "009" LF))); reflexivity.
Defined.

End ExtractorMore.

(** * Further properties of the load command *)

Section LoadMore.

Import LoadWorkflow.

Variables (rt : Runtime) (h : Host) (offlineConfig : OfflineConfig.t).
Variable migrateWorkflow : json -> Exc json.
Variable fileService : FileService.t.

#[local] Abbreviation stored_path workflowId :=
  (FileService.getWorkflowFilePath h offlineConfig fileService workflowId).

#[local] Abbreviation load workflowId requestId :=
  (loadWorkflow rt h offlineConfig migrateWorkflow fileService workflowId requestId).

(** In offline mode the offline path is the path of the active directory,
    so the search comes down to the one test of the active path. *)
Lemma locate_active_only workflowId :
  locate h offlineConfig fileService workflowId =
  if fs_stat h (stored_path workflowId) then (stored_path workflowId, "current")
  else (EmptyString, EmptyString).
Proof.
  rewrite locate_two_tiers.
  destruct (fs_stat h (stored_path workflowId)) eqn:Hactive; [reflexivity|].
  destruct (OfflineConfig.isOffline offlineConfig) eqn:Hoffline; [|reflexivity].
  assert (Hsame : FileService.getOfflineWorkflowFilePath h fileService workflowId
                  = stored_path workflowId).
  { unfold FileService.getWorkflowFilePath,
      FileService.getOfflineWorkflowFilePath, FileService.getCurrentStorageDirectory.
    by rewrite Hoffline. }
  by rewrite Hsame, Hactive.
Qed.

(** X8. The load command answers with the workflow exactly when the file
    of the active storage directory exists, can be read, parses and
    migrates; the answer then carries the request identifier of the call
    and the migrated value.  No other location can supply a workflow, in
    either mode. *)
Theorem load_succeeds_iff_active_file_loads workflowId requestId answered workflow :
  loadWorkflow rt h offlineConfig migrateWorkflow fileService workflowId requestId
    = LOAD_WORKFLOW answered workflow <->
  answered = requestId /\
  stored_path workflowId <> EmptyString /\
  fs_stat h (stored_path workflowId) = true /\
  exists content parsed,
    fs_readFile h (stored_path workflowId) = Return content /\
    JSON_parse rt content = Return parsed /\
    migrateWorkflow parsed = Return workflow.
Proof.
  unfold loadWorkflow. rewrite locate_active_only. split.
  - destruct (fs_stat h (stored_path workflowId)) eqn:Hstat; [|discriminate].
    destruct (String.eqb (stored_path workflowId) EmptyString) eqn:Hpath; [discriminate|].
    apply String.eqb_neq in Hpath. unfold FileService.readFile.
    destruct (fs_readFile h (stored_path workflowId)) as [content|e]; [|discriminate]. cbn.
    destruct (JSON_parse rt content) as [parsed|e] eqn:Hparse; [|discriminate]. cbn.
    destruct (migrateWorkflow parsed) as [migrated|e] eqn:Hmigrate; [|discriminate]. cbn.
    intros [= -> ->]. split; [reflexivity|]. split; [exact Hpath|]. split; [reflexivity|].
    by exists content, parsed.
  - intros (-> & Hpath & Hstat & content & parsed & Hread & Hparse & Hmigrate).
    rewrite Hstat. apply String.eqb_neq in Hpath. rewrite Hpath.
    unfold FileService.readFile. rewrite Hread. cbn. rewrite Hparse. cbn.
    by rewrite Hmigrate.
Qed.

(** X9. Every failure of the load command is answered by one [ERROR]
    message with the code [LOAD_FAILED] and the request identifier of the
    call.  Its text names the workflow when the file is missing from the
    active storage directory; it is the host's message behind the file
    service's prefix when the read fails; and it is the message of the
    parser or of the migration when these throw. *)
Theorem load_failure_messages workflowId requestId :
  (fs_stat h (stored_path workflowId) = false ->
   load workflowId requestId =
   ERROR requestId "LOAD_FAILED"
     ("Workflow " +:+ String "034" (workflowId +:+
        String "034" " not found in any storage location"))) /\
  (stored_path workflowId <> EmptyString ->
   fs_stat h (stored_path workflowId) = true ->
   (forall e,
      fs_readFile h (stored_path workflowId) = Throw e ->
      load workflowId requestId =
      ERROR requestId "LOAD_FAILED" ("[yougao] 读取文件 失败: " +:+ error_message e)) /\
   (forall content e,
      fs_readFile h (stored_path workflowId) = Return content ->
      JSON_parse rt content = Throw e ->
      load workflowId requestId = ERROR requestId "LOAD_FAILED" (error_message e)) /\
   (forall content parsed e,
      fs_readFile h (stored_path workflowId) = Return content ->
      JSON_parse rt content = Return parsed ->
      migrateWorkflow parsed = Throw e ->
      load workflowId requestId = ERROR requestId "LOAD_FAILED" (error_message e))) /\
  (forall workflows, load workflowId requestId <> WORKFLOW_LIST_LOADED requestId workflows).
Proof.
  unfold loadWorkflow. rewrite locate_active_only. split; [|split].
  - intros ->. reflexivity.
  - intros Hpath ->. apply String.eqb_neq in Hpath. rewrite Hpath.
    unfold FileService.readFile. split; [|split].
    + intros e ->. reflexivity.
    + intros content e -> Hparse. cbn. by rewrite Hparse.
    + intros content parsed e -> Hparse Hmigrate. cbn. rewrite Hparse. cbn. by rewrite Hmigrate.
  - intros workflows.
    destruct (fs_stat h (stored_path workflowId)); [|discriminate].
    destruct (String.eqb (stored_path workflowId) EmptyString); [discriminate|].
    unfold FileService.readFile.
    destruct (fs_readFile h (stored_path workflowId)) as [content|e]; [|discriminate]. cbn.
    destruct (JSON_parse rt content) as [parsed|e]; [|discriminate]. cbn.
    destruct (migrateWorkflow parsed) as [migrated|e]; discriminate.
Qed.

End LoadMore.

Lemma load_failure_messages_witness :
  let h := scenario_host odd_documents in
  LoadWorkflow.loadWorkflow scenario_runtime h OfflineConfig.config Return
    scenario_service "missing" (Some "r")
  = ERROR (Some "r") "LOAD_FAILED"
      (json_text "Workflow 'missing' not found in any storage location") /\
  exists e,
    JSON.parse "{oops" = Throw e /\
    LoadWorkflow.loadWorkflow scenario_runtime h OfflineConfig.config Return
      scenario_service "bad" (Some "r")
    = ERROR (Some "r") "LOAD_FAILED" (error_message e).
Proof.
  cbn zeta.
  destruct (load_failure_messages scenario_runtime (scenario_host odd_documents)
              OfflineConfig.config Return scenario_service "missing" (Some "r"))
    as (Hmissing & _ & _).
  destruct (load_failure_messages scenario_runtime (scenario_host odd_documents)
              OfflineConfig.config Return scenario_service "bad" (Some "r"))
    as (_ & Hbad & _).
  split; [apply Hmissing; vm_compute; reflexivity|].
  destruct (JSON.parse "{oops") as [v|e] eqn:Hparse; [vm_compute in Hparse; discriminate|].
  exists e. split; [reflexivity|].
  destruct Hbad as (_ & Hparsed & _); [vm_compute; discriminate|vm_compute; reflexivity|].
  apply (Hparsed "{oops" e); [vm_compute; reflexivity|exact Hparse].
Defined.

(** * Further properties of the listing *)

Section ListingMore.

Import LoadWorkflowList.

Variables (rt : Runtime) (h : Host) (offlineConfig : OfflineConfig.t).
Variable fileService : FileService.t.

#[local] Abbreviation scan := (loadWorkflowsFromDirectory rt h offlineConfig fileService).
#[local] Abbreviation visit_file := (visit rt h offlineConfig fileService).
#[local] Abbreviation read_entry := (readEntry rt h offlineConfig fileService).
#[local] Abbreviation active_directory :=
  (FileService.getCurrentStorageDirectory offlineConfig fileService).
#[local] Abbreviation active_file workflowId :=
  (FileService.getWorkflowFilePath h offlineConfig fileService workflowId).

#[local] Abbreviation entry_path := (entry_file h offlineConfig fileService).
#[local] Abbreviation scanned_directory := (scan_directory offlineConfig fileService).

Lemma scan_unfold st directoryType :
  scan st directoryType =
  match fs_readDirectory h (scanned_directory directoryType) with
  | Throw _ => st
  | Return files => foldl (visit_file directoryType) st files
  end.
Proof. by destruct directoryType. Qed.

Lemma readEntry_throws directoryType workflowId reads :
  (exists e, read_entry directoryType workflowId reads = Throw e) <->
  (exists e, FileService.readFile h (entry_path directoryType workflowId) = Throw e) \/
  (exists content,
     FileService.readFile h (entry_path directoryType workflowId) = Return content /\
     ((exists e, JSON_parse rt content = Throw e) \/ JSON_parse rt content = Return JNull)).
Proof.
  split.
  - unfold readEntry. fold (entry_path directoryType workflowId). intros [e He].
    destruct (FileService.readFile h (entry_path directoryType workflowId))
      as [content|e0] eqn:Hfile; [|left; by eexists].
    right. exists content. split; [reflexivity|]. cbn in He.
    destruct (JSON_parse rt content) as [workflow|e1] eqn:Hparse; [|left; by eexists].
    right. cbn in He.
    destruct workflow as [|b|n|s|items|members]; [reflexivity|exfalso..]; cbn in He;
      try discriminate.
    match type of He with
    | (let '(_, _) := ?scrutinee in _) = _ => destruct scrutinee
    end.
    discriminate.
  - intros [[e He]|(content & Hc & [[e He]|He])];
      unfold readEntry; fold (entry_path directoryType workflowId);
      rewrite ?He, ?Hc; cbn; rewrite ?He; cbn; by eexists.
Qed.

Lemma readEntry_throws_again directoryType directoryType' workflowId reads reads' :
  entry_path directoryType workflowId = entry_path directoryType' workflowId ->
  (exists e, read_entry directoryType workflowId reads = Throw e) ->
  exists e, read_entry directoryType' workflowId reads' = Throw e.
Proof.
  intros Hpath Hthrows. apply readEntry_throws. rewrite <- Hpath.
  by apply (readEntry_throws directoryType workflowId reads).
Qed.

Lemma visit_processed_grows directoryType st file :
  processedFiles st ⊆ processedFiles (visit_file directoryType st file).
Proof.
  unfold visit. destruct file as [filename [| | |]]; try reflexivity.
  destruct (Js.endsWith filename ".json"); [|reflexivity].
  destruct (decide _); [reflexivity|].
  destruct (readEntry _ _ _ _ _ _ _) as [[entry reads]|]; [|reflexivity].
  cbn. apply union_subseteq_l.
Qed.

Lemma foldl_visit_processed_grows directoryType files st :
  processedFiles st ⊆ processedFiles (foldl (visit_file directoryType) st files).
Proof.
  revert st. induction files as [|file files IH]; intros st; cbn; [reflexivity|].
  etransitivity; [apply (visit_processed_grows directoryType st file)|apply IH].
Qed.

(** A file that a scan has visited is passed over by every later visit,
    whatever has been gathered in between. *)
Lemma visit_again directoryType directoryType' st later file :
  (forall workflowId, entry_path directoryType workflowId = entry_path directoryType' workflowId) ->
  processedFiles (visit_file directoryType st file) ⊆ processedFiles later ->
  visit_file directoryType' later file = later.
Proof.
  intros Hpath. unfold visit. destruct file as [filename [| | |]]; try reflexivity.
  destruct (Js.endsWith filename ".json"); [|reflexivity].
  set (workflowId := Js.replace filename ".json" EmptyString).
  destruct (decide (workflowId ∈ processedFiles later)) as [|Hlater]; [reflexivity|].
  destruct (decide (workflowId ∈ processedFiles st)) as [Hin|Hfresh].
  { intros Hsub. destruct Hlater. by apply Hsub. }
  destruct (readEntry rt h offlineConfig fileService directoryType workflowId (clockReads st))
    as [[entry reads]|e] eqn:Hread.
  - cbn. intros Hsub. destruct Hlater. apply Hsub, elem_of_union_r. by apply elem_of_singleton.
  - intros _.
    destruct (readEntry_throws_again directoryType directoryType' workflowId
                (clockReads st) (clockReads later) (Hpath workflowId)) as [e' ->];
      [by exists e|reflexivity].
Qed.

Lemma foldl_visit_again directoryType directoryType' files st later :
  (forall workflowId, entry_path directoryType workflowId = entry_path directoryType' workflowId) ->
  processedFiles (foldl (visit_file directoryType) st files) ⊆ processedFiles later ->
  foldl (visit_file directoryType') later files = later.
Proof.
  intros Hpath. revert st. induction files as [|file files IH]; intros st Hsub; cbn in *.
  - reflexivity.
  - rewrite (visit_again directoryType directoryType' st later file Hpath).
    + by apply (IH (visit_file directoryType st file)).
    + etransitivity; [|exact Hsub]. apply foldl_visit_processed_grows.
Qed.

(** Scanning a directory a second time, under whatever directory type
    resolves to the same paths, changes nothing. *)
Lemma scan_again st directoryType directoryType' :
  scanned_directory directoryType = scanned_directory directoryType' ->
  (forall workflowId, entry_path directoryType workflowId = entry_path directoryType' workflowId) ->
  scan (scan st directoryType) directoryType' = scan st directoryType.
Proof.
  intros Hdirectory Hpath. rewrite (scan_unfold _ directoryType'), <- Hdirectory.
  rewrite (scan_unfold st directoryType).
  destruct (fs_readDirectory h (scanned_directory directoryType)) as [files|e] eqn:Hfiles.
  - by apply (foldl_visit_again directoryType directoryType' files st).
  - reflexivity.
Qed.

Lemma gather_first_scan :
  gather rt h offlineConfig fileService
  = scan {| workflows := []; processedFiles := ∅; clockReads := 0 |} current.
Proof.
  unfold gather. set (st := {| workflows := []; processedFiles := ∅; clockReads := 0 |}).
  destruct (OfflineConfig.isOffline offlineConfig) eqn:Hoffline.
  - rewrite (scan_again st current offline).
    + by apply scan_again.
    + unfold scan_directory, FileService.getWorkflowsDirectory,
        FileService.getOfflineWorkflowsDirectory, FileService.getCurrentStorageDirectory.
      by rewrite Hoffline.
    + intros workflowId.
      unfold entry_file, FileService.getWorkflowFilePath,
        FileService.getOfflineWorkflowFilePath, FileService.getCurrentStorageDirectory.
      by rewrite Hoffline.
  - by apply scan_again.
Qed.

(** Where the entries of a scan come from. *)
Lemma visit_origin directoryType st file e :
  e ∈ workflows (visit_file directoryType st file) ->
  e ∈ workflows st \/
  exists filename reads reads',
    file = (filename, FT_File) /\ Js.endsWith filename ".json" = true /\
    read_entry directoryType (Js.replace filename ".json" EmptyString) reads
      = Return (e, reads').
Proof.
  unfold visit. destruct file as [filename [| | |]]; try (by left).
  destruct (Js.endsWith filename ".json") eqn:Hends; [|by left].
  destruct (decide _); [by left|].
  destruct (readEntry _ _ _ _ _ _ _) as [[entry reads]|] eqn:Hread; [|by left].
  cbn. intros He. apply elem_of_app in He as [He|He]; [by left|].
  apply list_elem_of_singleton in He. subst e. right.
  by exists filename, (clockReads st), reads.
Qed.

Lemma foldl_visit_origin directoryType files st e :
  e ∈ workflows (foldl (visit_file directoryType) st files) ->
  e ∈ workflows st \/
  exists filename reads reads',
    (filename, FT_File) ∈ files /\ Js.endsWith filename ".json" = true /\
    read_entry directoryType (Js.replace filename ".json" EmptyString) reads
      = Return (e, reads').
Proof.
  revert st. induction files as [|file files IH]; intros st He; cbn in He; [by left|].
  apply IH in He as [He|(filename & reads & reads' & Hin & Hends & Hread)].
  - apply visit_origin in He as [He|(filename & reads & reads' & -> & Hends & Hread)];
      [by left|].
    right. exists filename, reads, reads'. split; [left|by split].
  - right. exists filename, reads, reads'. split; [by right|by split].
Qed.

Lemma readEntry_reads_file directoryType workflowId reads e reads' :
  read_entry directoryType workflowId reads = Return (e, reads') ->
  exists content workflow,
    fs_readFile h (entry_path directoryType workflowId) = Return content /\
    JSON_parse rt content = Return workflow /\ workflow <> JNull.
Proof.
  unfold readEntry. fold (entry_path directoryType workflowId). unfold FileService.readFile.
  destruct (fs_readFile h (entry_path directoryType workflowId)) as [content|e0];
    [cbn|discriminate].
  destruct (JSON_parse rt content) as [workflow|e1] eqn:Hparse; [cbn|discriminate].
  intros Hread. exists content, workflow. split; [reflexivity|]. split; [exact Hparse|].
  intros ->. cbn in Hread. discriminate.
Qed.

(** X10. The listing is the scan of the active storage directory alone:
    the scans of the offline and of the workspace location that follow it
    read the same directory again and leave the gathered entries, the set
    of processed names and the clock untouched, so that every entry is
    marked as coming from the current location. *)
Theorem later_scans_add_nothing :
  let first := scan {| workflows := []; processedFiles := ∅; clockReads := 0 |} current in
  gather rt h offlineConfig fileService = first /\
  (OfflineConfig.isOffline offlineConfig = true -> scan first offline = first) /\
  scan first workspace = first /\
  Forall (fun e => source e = current) (workflows (gather rt h offlineConfig fileService)).
Proof.
  cbn zeta. split; [exact gather_first_scan|]. split; [|split].
  - intros Hoffline. apply scan_again.
    + unfold scan_directory, FileService.getWorkflowsDirectory,
        FileService.getOfflineWorkflowsDirectory, FileService.getCurrentStorageDirectory.
      by rewrite Hoffline.
    + intros workflowId.
      unfold entry_file, FileService.getWorkflowFilePath,
        FileService.getOfflineWorkflowFilePath, FileService.getCurrentStorageDirectory.
      by rewrite Hoffline.
  - by apply scan_again.
  - rewrite gather_first_scan, scan_unfold.
    destruct (fs_readDirectory h (scanned_directory current)) as [files|e]; [|constructor].
    apply Forall_forall. intros e He.
    apply foldl_visit_origin in He as [He|(filename & reads & reads' & _ & _ & Hread)].
    + by apply elem_of_nil in He.
    + by apply readEntry_id in Hread as [_ Hsource].
Qed.

Lemma byUpdatedAt_throws x y e :
  byUpdatedAt rt x y = Throw e -> getTime rt x = Throw e \/ getTime rt y = Throw e.
Proof.
  unfold byUpdatedAt. destruct (getTime rt x) as [dateA|e']; cbn; [|intros [= ->]; by left].
  destruct (getTime rt y) as [dateB|e']; cbn; [discriminate|intros [= ->]; by right].
Qed.

Lemma byUpdatedAt_must_throw x y :
  (exists e, getTime rt x = Throw e) \/ (exists e, getTime rt y = Throw e) ->
  exists e, byUpdatedAt rt x y = Throw e.
Proof.
  unfold byUpdatedAt. intros [[e He]|[e He]].
  - rewrite He. by exists e.
  - destruct (getTime rt x) as [dateA|e']; cbn; [rewrite He|]; by eexists.
Qed.

(** With two entries or more, every entry takes part in a comparison: one
    timestamp that cannot be converted makes the sort throw. *)
Lemma Array_sort_must_throw (entries : list WorkflowEntry) :
  2 <= length entries ->
  (exists entry e, entry ∈ entries /\ getTime rt entry = Throw e) ->
  exists e, Array_sort (byUpdatedAt rt) entries = Throw e.
Proof.
  induction entries as [|x entries IH]; intros Hlength (bad & e & Hbad & Hthrows);
    [cbn in Hlength; lia|].
  cbn [Array_sort].
  destruct (Array_sort (byUpdatedAt rt) entries) as [sorted|e'] eqn:Hsorted; [|by exists e'].
  cbn. pose proof (Array_sort_perm _ _ _ Hsorted) as Hperm.
  destruct sorted as [|y rest].
  { apply Permutation_nil in Hperm. subst entries. cbn in Hlength. lia. }
  cbn [sort_insert].
  assert (Hxy : exists e0, byUpdatedAt rt x y = Throw e0).
  { apply elem_of_cons in Hbad as [->|Hbad].
    - apply byUpdatedAt_must_throw. left. by exists e.
    - destruct entries as [|z [|z' entries]].
      + by apply elem_of_nil in Hbad.
      + apply list_elem_of_singleton in Hbad. subst bad.
        apply Permutation_length in Hperm as Hlen. destruct rest; [|discriminate].
        apply Permutation_singleton_r in Hperm. injection Hperm as ->.
        apply byUpdatedAt_must_throw. right. by exists e.
      + destruct IH as [e0 He0]; [cbn; lia|by exists bad, e|congruence]. }
  destruct Hxy as [e0 ->]. by exists e0.
Qed.

(** X11. The list command posts one message, with the request identifier
    of the call.  It is the list of the gathered entries, each once: its
    identifiers are pairwise distinct, and each entry stems from a regular
    file of the active storage directory whose name ends in [.json], its
    identifier being that name with the first [.json] removed and the file
    of that identifier having been read and parsed to a value other than
    [null].  Or it is the error [LOAD_FAILED], with the message of the
    exception that the timestamp of a gathered entry throws when it is
    converted to a date; this happens exactly when two entries or more
    are gathered and such a timestamp is among them.  When the directory
    cannot be read the empty list is posted. *)
Theorem listing_entries_are_active_files requestId :
  let gathered := workflows (gather rt h offlineConfig fileService) in
  let posted := loadWorkflowList rt h offlineConfig fileService requestId in
  ((exists listed,
      posted = WORKFLOW_LIST_LOADED requestId listed /\
      Permutation listed (map withoutSource gathered) /\
      NoDup (map info_id listed) /\
      forall info, info ∈ listed ->
        exists files filename content workflow,
          fs_readDirectory h active_directory = Return files /\
          (filename, FT_File) ∈ files /\ Js.endsWith filename ".json" = true /\
          info_id info = Js.replace filename ".json" EmptyString /\
          fs_readFile h (active_file (info_id info)) = Return content /\
          JSON_parse rt content = Return workflow /\ workflow <> JNull) \/
   (exists entry e,
      entry ∈ gathered /\ getTime rt entry = Throw e /\
      posted = ERROR requestId "LOAD_FAILED" (error_message e))) /\
  ((exists text, posted = ERROR requestId "LOAD_FAILED" text) <->
   2 <= length gathered /\
   exists entry e, entry ∈ gathered /\ getTime rt entry = Throw e) /\
  ((exists e, fs_readDirectory h active_directory = Throw e) ->
   posted = WORKFLOW_LIST_LOADED requestId []).
Proof.
  intros gathered posted. unfold posted, loadWorkflowList. fold gathered.
  split; [|split].
  - destruct (Array_sort (byUpdatedAt rt) gathered) as [sorted|e] eqn:Hsort; cbn.
    + left. pose proof (Array_sort_perm _ _ _ Hsort) as Hperm.
      exists (map withoutSource sorted). split; [reflexivity|].
      split; [by apply Permutation_map|]. split.
      * rewrite map_map. change (fun x => info_id (withoutSource x)) with id.
        rewrite Hperm. apply gather_ids_distinct.
      * intros info Hinfo. apply list_elem_of_fmap in Hinfo as (entry & -> & Hentry).
        rewrite Hperm in Hentry. unfold gathered in Hentry.
        rewrite gather_first_scan, scan_unfold in Hentry.
        change (scanned_directory current) with active_directory in Hentry.
        destruct (fs_readDirectory h active_directory) as [files|e0];
          [|by apply elem_of_nil in Hentry].
        apply foldl_visit_origin in Hentry
          as [Hentry|(filename & reads & reads' & Hin & Hends & Hread)];
          [by apply elem_of_nil in Hentry|].
        pose proof (readEntry_id _ _ _ _ _ _ _ _ _ Hread) as [Hid _].
        apply readEntry_reads_file in Hread
          as (content & workflow & Hcontent & Hparse & Hnull).
        exists files, filename, content, workflow. cbn [withoutSource info_id]. rewrite Hid.
        by repeat split.
    + right. apply Array_sort_throws in Hsort as (x & y & Hx & Hy & Hthrows).
      apply byUpdatedAt_throws in Hthrows as [Hthrows|Hthrows];
        [by exists x, e|by exists y, e].
  - split.
    + intros [text Hposted]. clearbody gathered.
      destruct (Array_sort (byUpdatedAt rt) gathered) as [sorted|e] eqn:Hsort;
        [discriminate|].
      pose proof (Array_sort_throws _ _ _ Hsort) as (x & y & Hx & Hy & Hthrows). split.
      * destruct gathered as [|a [|b more]]; [by apply elem_of_nil in Hx| |cbn; lia].
        cbn in Hsort. discriminate.
      * apply byUpdatedAt_throws in Hthrows as [Hthrows|Hthrows];
          [by exists x, e|by exists y, e].
    + intros [Hlength Hbad].
      destruct (Array_sort_must_throw gathered Hlength Hbad) as [e ->]. by eexists.
  - intros [e He].
    assert (Hnone : gathered = []).
    { unfold gathered. rewrite gather_first_scan, scan_unfold.
      change (scanned_directory current) with active_directory. by rewrite He. }
    by rewrite Hnone.
Qed.

(** X12. A document that parses to something other than an object is
    not rejected, unless it is [null]: a number, a string, a boolean or an
    array is listed under the identifier of its file as name, without
    description, stamped with the current time (one reading of the clock);
    [null] makes the entry fail. *)
Theorem non_object_document_is_listed directoryType workflowId reads content workflow :
  fs_readFile h (entry_file h offlineConfig fileService directoryType workflowId)
    = Return content ->
  JSON_parse rt content = Return workflow ->
  (forall members, workflow <> JObj members) ->
  (workflow = JNull /\
   exists e, readEntry rt h offlineConfig fileService directoryType workflowId reads = Throw e) \/
  (workflow <> JNull /\
   readEntry rt h offlineConfig fileService directoryType workflowId reads =
   Return ({| id := workflowId; name := JStr workflowId; description := None;
              updatedAt := JStr (Date_toISOString rt (system_clock rt reads));
              source := directoryType |}, S reads)).
Proof.
  intros Hfile Hparse Hobject. unfold readEntry. fold (entry_path directoryType workflowId).
  unfold FileService.readFile. rewrite Hfile. cbn. rewrite Hparse. cbn.
  destruct workflow as [|b|n|s|items|members];
    [left; split; [reflexivity|by eexists]|right; by split..|by destruct (Hobject members)].
Qed.

Lemma visit_failing directoryType st file :
  entry_fails rt h offlineConfig fileService directoryType file = true ->
  visit_file directoryType st file = st.
Proof.
  unfold entry_fails, visit. destruct file as [filename fileType]. cbn [fst].
  intros Hfails. destruct fileType; try reflexivity.
  destruct (Js.endsWith filename ".json"); [|reflexivity].
  destruct (decide _); [reflexivity|].
  destruct (readEntry_throws_again directoryType directoryType
              (Js.replace filename ".json" EmptyString) 0 (clockReads st) eq_refl) as [e ->];
    [|reflexivity].
  destruct (readEntry rt h offlineConfig fileService directoryType _ 0) as [|e];
    [discriminate|by exists e].
Qed.

(** X13. Files whose document cannot be read or parsed, or is [null],
    leave no trace in a scan: the state after the scan - the gathered
    entries, the processed names and the clock readings - is the one the
    scan reaches on the same directory listing without those files. *)
Theorem failing_files_leave_no_trace directoryType st files :
  fs_readDirectory h (scanned_directory directoryType) = Return files ->
  scan st directoryType =
  foldl (visit_file directoryType) st
    (filter (fun file => entry_fails rt h offlineConfig fileService directoryType file = false)
       files).
Proof.
  intros Hfiles. rewrite scan_unfold, Hfiles. clear Hfiles.
  revert st. induction files as [|file files IH]; intros st; [reflexivity|].
  rewrite filter_cons. destruct (decide _) as [Hgood|Hbad]; cbn.
  - apply IH.
  - apply not_false_is_true in Hbad. rewrite (visit_failing _ _ _ Hbad). apply IH.
Qed.

End ListingMore.

Lemma listing_entries_are_active_files_witness :
  LoadWorkflowList.loadWorkflowList scenario_runtime (scenario_host one_throwing_date)
    OfflineConfig.config scenario_service (Some "r")
  = ERROR (Some "r") "LOAD_FAILED" "Cannot convert object to primitive value".
Proof.
  destruct (listing_entries_are_active_files scenario_runtime
              (scenario_host one_throwing_date) OfflineConfig.config scenario_service
              (Some "r")) as ([(listed & Hlisted & _)|(entry & e & Hentry & He & Hposted)] & _).
  - vm_compute in Hlisted. discriminate.
  - rewrite Hposted. f_equal.
    match type of Hentry with
    | _ ∈ ?gathered => remember gathered as entries eqn:Hentries
    end.
    vm_compute in Hentries. subst entries.
    apply elem_of_cons in Hentry as [->|Hentry];
      [vm_compute in He; discriminate|].
    apply list_elem_of_singleton in Hentry. subst entry.
    vm_compute in He. by injection He as <-.
Defined.

Lemma failing_files_leave_no_trace_witness :
  let h := scenario_host odd_documents in
  let st := {| LoadWorkflowList.workflows := []; LoadWorkflowList.processedFiles := ∅;
               LoadWorkflowList.clockReads := 0 |} in
  LoadWorkflowList.loadWorkflowsFromDirectory scenario_runtime h OfflineConfig.config
    scenario_service st LoadWorkflowList.current
  = foldl (LoadWorkflowList.visit scenario_runtime h OfflineConfig.config scenario_service
             LoadWorkflowList.current)
      st [("n.json", FT_File); ("o.json", FT_File)].
Proof.
  cbn zeta.
  rewrite (failing_files_leave_no_trace scenario_runtime (scenario_host odd_documents)
             OfflineConfig.config scenario_service LoadWorkflowList.current _
             [("n.json", FT_File); ("z.json", FT_File); ("bad.json", FT_File);
              ("o.json", FT_File)]);
    [|vm_compute; reflexivity].
  f_equal.
Defined.

Lemma non_object_document_is_listed_witness :
  let h := scenario_host odd_documents in
  LoadWorkflowList.readEntry scenario_runtime h OfflineConfig.config scenario_service
    LoadWorkflowList.current "n" 0
  = Return ({| LoadWorkflowList.id := "n"; LoadWorkflowList.name := JStr "n";
               LoadWorkflowList.description := None;
               LoadWorkflowList.updatedAt := JStr "2024-06-01T12:34:56.789Z";
               LoadWorkflowList.source := LoadWorkflowList.current |}, 1).
Proof.
  cbn zeta.
  destruct (non_object_document_is_listed scenario_runtime (scenario_host odd_documents)
              OfflineConfig.config scenario_service LoadWorkflowList.current "n" 0 "5" (JNum 5))
    as [[Hnull _]|[_ Hlisted]];
    [vm_compute; reflexivity|vm_compute; reflexivity|discriminate|discriminate|exact Hlisted].
Defined.

(** * Properties of the file service and of the workflow identifiers *)

Section Identifiers.

Variables (h : Host) (offlineConfig : OfflineConfig.t) (this : FileService.t).

Lemma index_of_first p s i : first_occurrence p s i -> String.index 0 p s = Some i.
Proof.
  intros Hfirst. destruct (String.index 0 p s) as [i'|] eqn:Hindex.
  - apply index_first in Hindex. by rewrite (first_occurrence_unique _ _ _ _ Hfirst Hindex).
  - destruct Hfirst as [Hocc _]. by destruct (index_none _ _ Hindex i).
Qed.

Lemma replace_first a p b by_ :
  first_occurrence p (a +:+ p +:+ b) (String.length a) ->
  Js.replace (a +:+ p +:+ b) p by_ = a +:+ by_ +:+ b.
Proof.
  intros Hfirst. unfold Js.replace. rewrite (index_of_first _ _ _ Hfirst), take_append.
  rewrite <- (append_assoc a p b), <- length_append, drop_append. reflexivity.
Qed.

Lemma removeJsonSuffix_append stem : FileService.removeJsonSuffix (stem +:+ ".json") = stem.
Proof.
  unfold FileService.removeJsonSuffix. rewrite endsWith_append.
  by apply (slice_strip_end stem ".json").
Qed.

(** X14. For a file name whose only [.json] is its extension the two
    ways of computing the identifier - removing the first [.json] (the
    workflow list) and removing the final [.json] (the file service) -
    agree and give the name without the extension, and the path derived
    from that identifier is the path of the file itself.  The name
    [a.json.b.json] is not of that kind: the workflow list turns it into
    [a.b.json], whose path is that of another file. *)
Theorem identifier_round_trip :
  (forall stem,
     (forall j, j < String.length stem -> ~ occurs_at ".json" (stem +:+ ".json") j) ->
     let filename := stem +:+ ".json" in
     Js.replace filename ".json" EmptyString = stem /\
     FileService.removeJsonSuffix filename = stem /\
     FileService.getWorkflowFilePath h offlineConfig this
       (Js.replace filename ".json" EmptyString)
     = path_join h [FileService.getCurrentStorageDirectory offlineConfig this; filename]) /\
  Js.replace "a.json.b.json" ".json" EmptyString = "a.b.json" /\
  FileService.removeJsonSuffix "a.json.b.json" = "a.json.b" /\
  FileService.getWorkflowFilePath h offlineConfig this
    (Js.replace "a.json.b.json" ".json" EmptyString)
  = path_join h [FileService.getCurrentStorageDirectory offlineConfig this; "a.b.json.json"].
Proof.
  split; [|split; [|split]]; [|reflexivity..].
  intros stem Hfirst filename.
  assert (Hreplace : Js.replace filename ".json" EmptyString = stem).
  { unfold filename. rewrite <- (append_empty_r (stem +:+ ".json")), append_assoc.
    rewrite replace_first.
    - cbn. apply append_empty_r.
    - split; [by exists stem, EmptyString|].
      intros j Hj. rewrite <- append_assoc, append_empty_r. by apply Hfirst. }
  split; [exact Hreplace|]. split; [apply removeJsonSuffix_append|].
  unfold FileService.getWorkflowFilePath. by rewrite Hreplace.
Qed.


(** X16. The file service cannot be constructed without an open workspace
    folder, in offline mode too; otherwise it is built from the first
    folder alone.  The offline directory does not depend on the workspace:
    a configured path that begins with a tilde and a slash is resolved
    against the home directory, the lone tilde is the home directory
    joined with the empty path, and any other path, a path such as
    [~user/x] included, is taken as it stands. *)
Theorem file_service_construction :
  (FileService.constructor h offlineConfig = Throw (Error "No workspace folder is open") <->
   workspaceFolders h = None \/ workspaceFolders h = Some []) /\
  (forall folder others,
     workspaceFolders h = Some (folder :: others) ->
     exists service,
       FileService.constructor h offlineConfig = Return service /\
       FileService.workspacePath service = folder /\
       FileService.workflowsDirectory service = path_join h [folder; ".vscode"; "workflows"] /\
       (forall rest,
          OfflineConfig.localStoragePath offlineConfig = "~/" +:+ rest ->
          FileService.offlineWorkflowsDirectory service = path_join h [homedir h; rest]) /\
       (OfflineConfig.localStoragePath offlineConfig = "~" ->
        FileService.offlineWorkflowsDirectory service
        = path_join h [homedir h; EmptyString]) /\
       (Js.startsWith (OfflineConfig.localStoragePath offlineConfig) "~/" = false ->
        OfflineConfig.localStoragePath offlineConfig <> "~" ->
        FileService.offlineWorkflowsDirectory service
        = OfflineConfig.localStoragePath offlineConfig)).
Proof.
  unfold FileService.constructor. split.
  - destruct (workspaceFolders h) as [[|folder others]|].
    + split; [by right|reflexivity].
    + split; [discriminate|intros [|]; discriminate].
    + split; [by left|reflexivity].
  - intros folder others ->. eexists. split; [reflexivity|].
    split; [reflexivity|]. split; [reflexivity|].
    cbn [FileService.offlineWorkflowsDirectory]. split; [|split].
    + intros rest ->. unfold FileService.resolveLocalStoragePath.
      rewrite startsWith_append. cbn [orb].
      change 2%Z with (Z.of_nat (String.length "~/")). by rewrite slice_from.
    + intros ->. reflexivity.
    + intros Hstart Hlone. unfold FileService.resolveLocalStoragePath. rewrite Hstart.
      apply String.eqb_neq in Hlone. by rewrite Hlone.
Qed.

End Identifiers.

Lemma identifier_round_trip_witness :
  Js.replace "report.v2.json" ".json" EmptyString = "report.v2".
Proof.
  apply (proj1 (identifier_round_trip (scenario_host legacy_only) OfflineConfig.config
                  scenario_service) "report.v2").
  intros j Hj (a & b & Heq & Hlen). cbn in Hj.
  assert (Hcases : j = 0 \/ j = 1 \/ j = 2 \/ j = 3 \/ j = 4 \/ j = 5 \/ j = 6 \/ j = 7
                   \/ j = 8) by lia.
  destruct a as [|a0 [|a1 [|a2 [|a3 [|a4 [|a5 [|a6 [|a7 [|a8 a]]]]]]]]];
    cbn in Heq, Hlen; try lia; discriminate.
Defined.

Lemma file_service_construction_witness :
  exists service,
    FileService.constructor (scenario_host legacy_only) OfflineConfig.config = Return service /\
    FileService.offlineWorkflowsDirectory service = "/home/user/.yougao/workflows".
Proof.
  destruct (proj2 (file_service_construction (scenario_host legacy_only) OfflineConfig.config)
              "/work" [] eq_refl)
    as (service & Hservice & _ & _ & Hhome & _ & _).
  exists service. split; [exact Hservice|].
  exact (Hhome ".yougao/workflows" eq_refl).
Defined.

(** * Ties in the listing *)

Section SortStable.

Context {A : Type} (comparefn : A -> A -> Exc (option Z)).
Context (P : A -> Prop) `{!forall x, Decision (P x)}.

(** An element is never moved past one it does not compare greater than. *)
Lemma sort_insert_filter x (l l' : list A) :
  (P x -> Forall (fun y => P y ->
     exists v, comparefn x y = Return v /\ (compare_result v <= 0)%Z) l) ->
  sort_insert comparefn x l = Return l' ->
  filter P l' = filter P (x :: l).
Proof.
  revert l'. induction l as [|y l IH]; intros l' Hties Hsort; cbn in Hsort.
  - by injection Hsort as <-.
  - destruct (comparefn x y) as [v|e] eqn:Hxy; [cbn in Hsort|discriminate].
    destruct (compare_result v >? 0)%Z eqn:Hgt; [|by injection Hsort as <-].
    destruct (sort_insert comparefn x l) as [rest|e]; [cbn in Hsort|discriminate].
    injection Hsort as <-.
    rewrite (filter_cons _ y), (IH rest), !filter_cons; [|
      intros Hx; specialize (Hties Hx); by apply Forall_cons in Hties as [_ Hrest]|
      reflexivity].
    destruct (decide (P y)) as [Hy|]; [|reflexivity].
    destruct (decide (P x)) as [Hx|]; [|reflexivity].
    specialize (Hties Hx). apply Forall_cons in Hties as [Hhead _].
    destruct (Hhead Hy) as (v' & Hv' & Hle). rewrite Hxy in Hv'. injection Hv' as <-. lia.
Qed.

Lemma Array_sort_filter (l l' : list A) :
  (forall x y, x ∈ l -> y ∈ l -> P x -> P y ->
     exists v, comparefn x y = Return v /\ (compare_result v <= 0)%Z) ->
  Array_sort comparefn l = Return l' ->
  filter P l' = filter P l.
Proof.
  revert l'. induction l as [|x l IH]; intros l' Hties Hsort; cbn in Hsort.
  - by injection Hsort as <-.
  - destruct (Array_sort comparefn l) as [sorted|e] eqn:Hsorted; [cbn in Hsort|discriminate].
    assert (Hhead : P x -> Forall (fun y => P y ->
              exists v, comparefn x y = Return v /\ (compare_result v <= 0)%Z) sorted).
    { intros Hx. apply Forall_forall. intros y Hy HPy.
      apply Hties; [left|right|exact Hx|exact HPy].
      by rewrite <- (Array_sort_perm _ _ _ Hsorted). }
    rewrite (sort_insert_filter x sorted l' Hhead Hsort), !filter_cons.
    rewrite (IH sorted); [reflexivity| |reflexivity].
    intros a b Ha Hb. apply Hties; by right.
Qed.

End SortStable.

Lemma filter_map_list {A B : Type} (f : A -> B) (P : B -> Prop) `{!forall b, Decision (P b)}
  (l : list A) :
  filter P (map f l) = map f (filter (fun a => P (f a)) l).
Proof.
  induction l as [|a l IH]; [reflexivity|]. cbn [map]. rewrite !filter_cons, IH.
  by destruct (decide (P (f a))).
Qed.

(** X17. Ties keep the scan order: whenever every gathered entry carries a
    valid timestamp, the entries of the posted listing that share a
    timestamp are the gathered entries with that timestamp, in the order
    in which the scan gathered them. *)
Theorem equal_timestamps_keep_scan_order rt h offlineConfig fileService requestId time :
  let gathered :=
    LoadWorkflowList.workflows (LoadWorkflowList.gather rt h offlineConfig fileService) in
  Forall (fun e => exists t, LoadWorkflowList.getTime rt e = Return (Some t)) gathered ->
  exists listed,
    LoadWorkflowList.loadWorkflowList rt h offlineConfig fileService requestId
      = WORKFLOW_LIST_LOADED requestId listed /\
    filter (fun info => Date_getTime rt (info_updatedAt info) = Return (Some time)) listed
    = map LoadWorkflowList.withoutSource
        (filter (fun e => LoadWorkflowList.getTime rt e = Return (Some time)) gathered).
Proof.
  intros gathered Hvalid. rewrite Forall_forall in Hvalid.
  destruct (Array_sort_returns (LoadWorkflowList.byUpdatedAt rt) gathered)
    as [sorted Hsort].
  { intros x y Hx Hy. destruct (Hvalid x Hx) as [tx Hx']. destruct (Hvalid y Hy) as [ty Hy'].
    unfold LoadWorkflowList.byUpdatedAt. rewrite Hx', Hy'. by eexists. }
  exists (map LoadWorkflowList.withoutSource sorted). split.
  - unfold LoadWorkflowList.loadWorkflowList. fold gathered. by rewrite Hsort.
  - rewrite (filter_map_list LoadWorkflowList.withoutSource). f_equal.
    apply (Array_sort_filter (LoadWorkflowList.byUpdatedAt rt)
             (fun e => LoadWorkflowList.getTime rt e = Return (Some time)) gathered sorted);
      [|exact Hsort].
    intros x y _ _ Hx Hy. unfold LoadWorkflowList.byUpdatedAt. rewrite Hx, Hy. cbn.
    eexists. split; [reflexivity|]. cbn. lia.
Qed.

Lemma equal_timestamps_keep_scan_order_witness :
  exists listed,
    LoadWorkflowList.loadWorkflowList scenario_runtime (scenario_host tied_dates)
      OfflineConfig.config scenario_service None = WORKFLOW_LIST_LOADED None listed /\
    map info_id listed = ["b"; "a"; "c"] /\
    map info_id
      (filter (fun info => Date_getTime scenario_runtime (info_updatedAt info)
                           = Return (Some 1704067200000%Z)) listed)
    = ["a"; "c"].
Proof.
  destruct (equal_timestamps_keep_scan_order scenario_runtime (scenario_host tied_dates)
              OfflineConfig.config scenario_service None 1704067200000%Z)
    as (listed & Hlisted & Hties).
  - match goal with
    | |- Forall _ ?gathered => remember gathered as entries eqn:Hentries
    end.
    vm_compute in Hentries. subst entries.
    do 3 (constructor; [eexists; vm_compute; reflexivity|]). constructor.
  - exists listed. split; [exact Hlisted|].
    assert (Hids : map info_id listed = ["b"; "a"; "c"]).
    { revert Hlisted. clear. intros Hlisted. vm_compute in Hlisted.
      injection Hlisted as <-. reflexivity. }
    split; [exact Hids|]. rewrite Hties.
    match goal with
    | |- map _ (map _ ?ties) = _ => remember ties as entries eqn:Hentries
    end.
    vm_compute in Hentries. subst entries. reflexivity.
Defined.

